(** * Beacon.ts: the beacon record and its decoder

    A shallow embedding of [src/model/Beacon.ts] and of the few ECMAScript
    built-ins it calls, followed by the properties of the decoder, of the
    rounding of distances and of the lenient comparison of records.

    Conventions of the embedding.
    - A JavaScript string is a [string]: a sequence of code units, here the
      code units 0..255 (a payload is the hexadecimal text of the
      advertisement bytes).
    - A Number that is the result of [parseInt] is an integer or NaN and is
      carried as [option Z] ([None] is NaN; the two zeros are one).  The
      integers that occur are below 2^53 in magnitude, where binary64 is
      exact.
    - Every other Number is a [number]: NaN, the two infinities, or a real.
      Arithmetic on reals is exact: the rounding of binary64 is not part of
      the model, and neither is the sign of zero.  [Binary64] computes the
      rounding of a distance in binary64 itself, to compare the two on
      sample values.
    - An abrupt completion (a thrown exception) is the [Throw] case of
      [completion]; code that can throw lives in that monad.
    - [Date.now()] is the argument [now] of the constructor. *)

From Stdlib Require Import ZArith List String Ascii Bool Lia.
From Stdlib Require Import Reals Zfloor Lra.
From Stdlib Require Import Floats.
Import ListNotations.

Local Open Scope string_scope.
Local Open Scope Z_scope.

(** ** Completions *)

Inductive error : Type := TypeError | RangeError.

Inductive completion (A : Type) : Type :=
| Normal (a : A)
| Throw (e : error).

Arguments Normal {A} a.
Arguments Throw {A} e.

Definition bind {A B : Type} (c : completion A) (k : A -> completion B)
  : completion B :=
  match c with
  | Normal a => k a
  | Throw e => Throw e
  end.

Notation "x <- c ;; k" := (bind c (fun x => k))
  (at level 61, c at next level, right associativity).

(** ** The ECMAScript built-ins the source calls *)

Module JS.

(** *** Strings *)

Fixpoint drop (n : nat) (s : string) : string :=
  match n, s with
  | O, _ => s
  | S _, EmptyString => EmptyString
  | S n', String _ s' => drop n' s'
  end.

Fixpoint take (n : nat) (s : string) : string :=
  match n, s with
  | O, _ => EmptyString
  | S _, EmptyString => EmptyString
  | S n', String c s' => String c (take n' s')
  end.

(** [String.prototype.substr(start, length)] for the non-negative integer
    arguments of the source: the code units from [start], at most [length]
    of them, fewer (down to none) when the string ends before. *)
Definition substr (s : string) (start length : nat) : string :=
  take length (drop start s).

(** [n] times the character 0. *)
Fixpoint zeros (n : nat) : string :=
  match n with
  | O => EmptyString
  | S n' => String "0" (zeros n')
  end.

(** [String.prototype.padStart(targetLength, "0")]. *)
Definition padStart0 (s : string) (targetLength : nat) : string :=
  zeros (targetLength - String.length s) ++ s.

Definition code (c : ascii) : Z := Z.of_N (N_of_ascii c).

(** WhiteSpace and LineTerminator code units below 256: TAB, LF, VT, FF, CR,
    SP and NBSP. *)
Definition isWhiteSpace (c : ascii) : bool :=
  let n := code c in
  ((9 <=? n) && (n <=? 13)) || (n =? 32) || (n =? 160).

(** [TrimString(s, start)]. *)
Fixpoint trimStart (s : string) : string :=
  match s with
  | String c s' => if isWhiteSpace c then trimStart s' else s
  | EmptyString => s
  end.

(** *** Digits *)

(** The value of a digit: 0-9, then a-z or A-Z for 10 to 35. *)
Definition digitValue (c : ascii) : option Z :=
  let n := code c in
  if (48 <=? n) && (n <=? 57) then Some (n - 48)
  else if (97 <=? n) && (n <=? 122) then Some (n - 87)
  else if (65 <=? n) && (n <=? 90) then Some (n - 55)
  else None.

Definition radixDigit (R : Z) (c : ascii) : option Z :=
  match digitValue c with
  | Some d => if d <? R then Some d else None
  | None => None
  end.

(** The values of the longest prefix of [s] made of radix-[R] digits. *)
Fixpoint takeDigits (R : Z) (s : string) : list Z :=
  match s with
  | String c s' =>
      match radixDigit R c with
      | Some d => d :: takeDigits R s'
      | None => []
      end
  | EmptyString => []
  end.

(** The integer a digit sequence denotes in radix [R], first digit most
    significant. *)
Definition mathInt (R : Z) (ds : list Z) : Z :=
  fold_left (fun acc d => acc * R + d) ds 0.

(** The digit of a value below 36, lower case as [Number.prototype.toString]
    writes it. *)
Definition digitChar (d : Z) : ascii :=
  ascii_of_N (Z.to_N (if d <? 10 then 48 + d else 87 + d)).

(** The digits of [n] in radix [R] written before [acc]; nothing for 0.
    [fuel] bounds the number of digits. *)
Fixpoint digitsBefore (fuel : nat) (R n : Z) (acc : string) : string :=
  match fuel with
  | O => acc
  | S fuel' =>
      if n <=? 0 then acc
      else digitsBefore fuel' R (n / R) (String (digitChar (n mod R)) acc)
  end.

(** A positive [n] has at most [log2 n + 1] digits in any radix from 2. *)
Definition digits (R n : Z) : string :=
  digitsBefore (S (Z.to_nat (Z.log2 n))) R n "".

(** *** parseInt and Number.prototype.toString *)

Definition ToInt32 (z : Z) : Z := (z + 2 ^ 31) mod 2 ^ 32 - 2 ^ 31.

(** [parseInt(string, radix)], step by step as ECMA-262 19.2.5 has it. *)
Definition parseInt (string : string) (radix : Z) : option Z :=
  let S := trimStart string in
  let sign := if prefix "-" S then -1 else 1 in
  let S := if prefix "-" S || prefix "+" S then drop 1 S else S in
  let R := ToInt32 radix in
  let stripPrefix := (R =? 0) || (R =? 16) in
  if negb (R =? 0) && ((R <? 2) || (36 <? R)) then None
  else
    let R := if R =? 0 then 10 else R in
    let hasPrefix := stripPrefix && (prefix "0x" S || prefix "0X" S) in
    let S := if hasPrefix then drop 2 S else S in
    let R := if hasPrefix then 16 else R in
    match takeDigits R S with
    | [] => None
    | ds => Some (sign * mathInt R ds)
    end.

(** The text of an integer or NaN in a radix: a sign, then the digits. *)
Definition numberText (x : option Z) (radix : Z) : string :=
  match x with
  | None => "NaN"
  | Some z =>
      if z <? 0 then "-" ++ digits radix (- z)
      else if z =? 0 then "0"
      else digits radix z
  end.

(** [Number.prototype.toString(radix)] of an integer or NaN: a RangeError
    for a radix outside 2..36, else the text. *)
Definition Number_toString (x : option Z) (radix : Z) : completion string :=
  if (radix <? 2) || (36 <? radix) then Throw RangeError
  else Normal (numberText x radix).

(** *** Numbers *)

(** A Number: NaN, an infinity ([Inf true] is -Infinity) or a real. *)
Inductive number : Type :=
| NaN
| Inf (negative : bool)
| Fin (r : R).

Arguments Fin r%_R.

(** The Number an integer-or-NaN is. *)
Definition num (x : option Z) : number :=
  match x with
  | None => NaN
  | Some z => Fin (IZR z)
  end.

Definition Rltb (a b : R) : bool := if Rlt_dec a b then true else false.

Definition Reqb (a b : R) : bool := if Req_dec_T a b then true else false.

(** [x - y]. *)
Definition sub (x y : number) : number :=
  match x, y with
  | NaN, _ | _, NaN => NaN
  | Inf s, Inf t => if Bool.eqb s t then NaN else Inf s
  | Inf s, Fin _ => Inf s
  | Fin _, Inf t => Inf (negb t)
  | Fin a, Fin b => Fin (a - b)
  end.

(** [x * y]. *)
Definition mul (x y : number) : number :=
  match x, y with
  | NaN, _ | _, NaN => NaN
  | Inf s, Inf t => Inf (xorb s t)
  | Inf s, Fin a | Fin a, Inf s =>
      if Reqb a 0 then NaN else Inf (xorb s (Rltb a 0))
  | Fin a, Fin b => Fin (a * b)
  end.

(** [x / y]; the zero of the model divides as +0 does. *)
Definition div (x y : number) : number :=
  match x, y with
  | NaN, _ | _, NaN => NaN
  | Inf _, Inf _ => NaN
  | Inf s, Fin b => Inf (xorb s (Rltb b 0))
  | Fin _, Inf _ => Fin 0
  | Fin a, Fin b =>
      if Reqb b 0 then (if Reqb a 0 then NaN else Inf (Rltb a 0))
      else Fin (a / b)
  end.

(** [x < y]: false as soon as an operand is NaN. *)
Definition lt (x y : number) : bool :=
  match x, y with
  | NaN, _ | _, NaN => false
  | Inf s, Inf t => s && negb t
  | Inf s, Fin _ => s
  | Fin _, Inf t => negb t
  | Fin a, Fin b => Rltb a b
  end.

(** [x === y] on Numbers: NaN equals nothing, itself included. *)
Definition strictEquals (x y : number) : bool :=
  match x, y with
  | Inf s, Inf t => Bool.eqb s t
  | Fin a, Fin b => Reqb a b
  | _, _ => false
  end.

(** [Math.round(x)]: the nearest integer, a tie going to the one closer to
    +Infinity. *)
Definition Math_round (x : number) : number :=
  match x with
  | Fin r => Fin (IZR (Zfloor (r + / 2)))
  | _ => x
  end.

(** [Math.pow(10, y)], 10 being the one base the source raises. *)
Definition Math_pow10 (y : number) : number :=
  match y with
  | NaN => NaN
  | Inf true => Fin 0
  | Inf false => Inf false
  | Fin e => Fin (Rpower 10 e)
  end.

(** *** References *)

(** What a parameter of class type [A] holds at run time: an object, or one
    of the two absent values. *)
Inductive ref (A : Type) : Type :=
| Undefined
| Null
| Object (o : A).

Arguments Undefined {A}.
Arguments Null {A}.
Arguments Object {A} o.

Definition ToBoolean {A : Type} (b : ref A) : bool :=
  match b with
  | Object _ => true
  | _ => false
  end.

(** [b.f]: a TypeError on an absent [b]. *)
Definition member {A B : Type} (b : ref A) (f : A -> B) : completion B :=
  match b with
  | Object o => Normal (f o)
  | _ => Throw TypeError
  end.

End JS.

Import JS.

(** ** The source: [PROXIMITY] and the class [Beacon] *)

Module PROXIMITY.

Definition IMMEDIATE : string := "immediate".
Definition NEAR : string := "near".
Definition FAR : string := "far".
Definition UNKNOWN : string := "unknown".

End PROXIMITY.

Record Beacon : Type := mkBeacon {
  distance : number;
  joinCode : string;
  lastSeen : Z;
  proximity : string;
  uuid : string
}.

(** [new Beacon(uuid, joinCode, distance, proximity)] when [Date.now()]
    reads [now]. *)
Definition constructor (now : Z) (uuid joinCode : string) (distance : number)
    (proximity : string) : Beacon :=
  {| distance := distance;
     joinCode := joinCode;
     lastSeen := now;
     proximity := proximity;
     uuid := uuid |}.

Definition getRoundedDistance (this : Beacon) : number :=
  div (Math_round (mul (distance this) (Fin 10))) (Fin 10).

(** What [b && e] evaluates to, for a reference [b] and a boolean [e]:
    [b] itself when it is falsy, and the boolean otherwise. *)
Inductive value : Type :=
| VRef (b : ref Beacon)
| VBoolean (t : bool).

(** [ToBoolean] of such a value. *)
Definition truthy (v : value) : bool :=
  match v with
  | VRef b => ToBoolean b
  | VBoolean t => t
  end.

Definition isEqual (this : Beacon) (b : ref Beacon) : completion value :=
  if negb (ToBoolean b) then Normal (VRef b)
  else
    u <- member b uuid ;;
    if negb (u =? uuid this)%string then Normal (VBoolean false)
    else
      j <- member b joinCode ;;
      if negb (j =? joinCode this)%string then Normal (VBoolean false)
      else
        d <- member b getRoundedDistance ;;
        Normal (VBoolean (strictEquals d (getRoundedDistance this))).

Definition toString (this : Beacon) : string :=
  "UUID: " ++ uuid this ++ " CODE: " ++ joinCode this
  ++ " PROXIMITY: " ++ proximity this.

(** [Beacon.parse(dataString, rssi)]; [None] is the [null] of its return
    type [Beacon | null]. *)
Definition parse (now : Z) (dataString : string) (rssi : number)
  : completion (option Beacon) :=
  let uuid :=
    substr dataString 0 8 ++ "-" ++ substr dataString 8 4 ++ "-"
    ++ substr dataString 12 4 ++ "-" ++ substr dataString 16 4 ++ "-"
    ++ substr dataString 20 12 in
  let major := substr dataString 32 4 in
  let minor := substr dataString 36 4 in
  joinCode <- Number_toString (parseInt (major ++ minor) 16) 36 ;;
  let power := sub (num (parseInt (substr dataString 40 2) 16)) (Fin 256) in
  let distance := Math_pow10 (div (sub power rssi) (mul (Fin 10) (Fin 2))) in
  let proximity :=
    if lt distance (Fin 1) then PROXIMITY.IMMEDIATE
    else if lt distance (Fin 3) then PROXIMITY.NEAR
    else PROXIMITY.FAR in
  Normal (Some (constructor now uuid joinCode distance proximity)).

(** ** The rounding of a distance in binary64 *)

Module Binary64.

Definition ofZ (z : Z) : float :=
  match z with
  | Z0 => 0%float
  | Zpos _ => PrimFloat.of_uint63 (Uint63.of_Z z)
  | Zneg p => (- PrimFloat.of_uint63 (Uint63.of_Z (Zpos p)))%float
  end.

(** [Math.round(x)] on binary64: a finite [x] with a fractional part is
    [n * 2 ^ e] with [e < 0], and the result is the floor of [x + 1/2],
    which is below 2^52 in magnitude; a zero result takes the sign of [x]. *)
Definition Math_round (x : float) : float :=
  match Prim2SF x with
  | S754_finite s m e =>
      if 0 <=? e then x
      else
        let n := if s then Zneg m else Zpos m in
        let k := (2 * n + 2 ^ (- e)) / 2 ^ (1 - e) in
        if k =? 0 then (if s then (-0)%float else 0%float) else ofZ k
  | _ => x
  end.

Definition getRoundedDistance (distance : float) : float :=
  (Math_round (distance * 10) / 10)%float.

(** The exponent [(power - rssi) / (10 * 2)] that [parse] raises 10 to. *)
Definition exponent (power rssi : float) : float :=
  ((power - rssi) / (10 * 2))%float.

(** The integers from [lo], [n] of them. *)
Definition integers (lo : Z) (n : nat) : list Z :=
  map (fun i => lo + Z.of_nat i) (seq 0 n).

End Binary64.

(** ** The specification's vocabulary *)

(** A string cut into consecutive groups of the given sizes. *)
Fixpoint groups (sizes : list nat) (s : string) : list string :=
  match sizes with
  | [] => []
  | n :: sizes' => take n s :: groups sizes' (drop n s)
  end.

(** The identity a run of 32 hexadecimal characters spells: groups of
    8/4/4/4/12 characters joined by dashes. *)
Definition identityOf (hex : string) : string :=
  concat "-" (groups [8; 4; 4; 4; 12]%nat hex).


(** Every character is a digit of radix [R]. *)
Fixpoint allDigits (R : Z) (s : string) : bool :=
  match s with
  | String c s' =>
      match radixDigit R c with
      | Some _ => allDigits R s'
      | None => false
      end
  | EmptyString => true
  end.

(** A base-36 string: one digit at least, each a digit of radix 36. *)
Definition base36 (S : string) : bool :=
  negb (S =? "")%string && allDigits 36 S.

(** A digit as [Number.prototype.toString] writes it: 0-9 or a-z. *)
Definition lowerDigit (c : ascii) : bool :=
  let n := code c in
  ((48 <=? n) && (n <=? 57)) || ((97 <=? n) && (n <=? 122)).

Fixpoint allLower (s : string) : bool :=
  match s with
  | String c s' => lowerDigit c && allLower s'
  | EmptyString => true
  end.

(** The base-36 strings [Number.prototype.toString(36)] can write: digits
    0-9 and a-z, and no leading zero but in "0" itself. *)
Definition canonical36 (S : string) : bool :=
  negb (S =? "")%string && allLower S
  && ((S =? "0")%string || negb (prefix "0" S)).

(** Modelled from the spec: the encoder of a join code, which is not among
    the sources.  "Parse S as base-36, render the value as zero-padded
    base-16 split across major and minor": the eight characters of the two
    fields. *)
Definition encodeJoinCode (S : string) : completion string :=
  hex <- Number_toString (parseInt S 36) 16 ;;
  Normal (padStart0 hex 8).

(** Modelled from the spec: the payload an encoder sends, the two fields at
    the offsets the decoder reads them from. *)
Definition encodePayload (identity S power : string) : completion string :=
  fields <- encodeJoinCode S ;;
  let major := substr fields 0 4 in
  let minor := substr fields 4 4 in
  Normal (identity ++ major ++ minor ++ power).

(** A character with a letter a-z put in upper case. *)
Definition upperChar (c : ascii) : ascii :=
  let n := code c in
  if (97 <=? n) && (n <=? 122) then ascii_of_N (Z.to_N (n - 32)) else c.

(** A string with its letters a-z put in upper case. *)
Fixpoint upperASCII (s : string) : string :=
  match s with
  | String c s' => String (upperChar c) (upperASCII s')
  | EmptyString => EmptyString
  end.

(** What is left of [s] after [n] hexadecimal digits, if it starts with as
    many. *)
Fixpoint hexRun (n : nat) (s : string) : option string :=
  match n, s with
  | O, _ => Some s
  | S n', String c s' =>
      match radixDigit 16 c with
      | Some _ => hexRun n' s'
      | None => None
      end
  | S _, EmptyString => None
  end.

(** The pattern XXXXXXXX-XXXX-XXXX-XXXX-XXXXXXXXXXXX of hexadecimal digits. *)
Definition isUUID (u : string) : bool :=
  match hexRun 8 u with
  | Some (String "-" r1) =>
      match hexRun 4 r1 with
      | Some (String "-" r2) =>
          match hexRun 4 r2 with
          | Some (String "-" r3) =>
              match hexRun 4 r3 with
              | Some (String "-" r4) =>
                  match hexRun 12 r4 with
                  | Some EmptyString => true
                  | _ => false
                  end
              | _ => false
              end
          | _ => false
          end
      | _ => false
      end
  | _ => false
  end.

(** ** Evaluation on concrete inputs *)

Example parseInt_C6 : parseInt "C6" 16 = Some 198.
Proof. reflexivity. Qed.

Example parseInt_sign_prefix : parseInt "  -0x1fz" 16 = Some (-31).
Proof. reflexivity. Qed.

Example parseInt_empty : parseInt "" 16 = None.
Proof. reflexivity. Qed.

Example toString36_max : Number_toString (Some 4294967295) 36 = Normal "1z141z3".
Proof. reflexivity. Qed.

Example toString36_negative : Number_toString (Some (-35)) 36 = Normal "-z".
Proof. reflexivity. Qed.

Example encodeJoinCode_abc : encodeJoinCode "abc" = Normal "00003438".
Proof. reflexivity. Qed.

(** In binary64 the sample distances round as they do in exact arithmetic.
    A decimal literal denotes the nearest double, as it does in the source
    language. *)
#[local] Set Warnings "-inexact-float".

Example getRoundedDistance_binary64 :
  Binary64.getRoundedDistance 2.34 = 2.3%float
  /\ Binary64.getRoundedDistance 2.36 = 2.4%float
  /\ Binary64.getRoundedDistance 2.449999 = 2.4%float
  /\ Binary64.getRoundedDistance 2.45 = 2.5%float
  /\ Binary64.getRoundedDistance (-0.25) = (-0.2)%float.
Proof. repeat split; reflexivity. Qed.

(** In binary64 the power byte C6 heard at rssi -70 gives the exponent 0.6;
    and for every power byte and every integer rssi from -128 to 126, one
    more of rssi makes the exponent strictly smaller: on integers, what
    [parse] hands to [Math.pow] is as monotone as it is in exact
    arithmetic. *)
Example exponent_binary64 :
  Binary64.exponent (Binary64.ofZ (198 - 256)) (-70) = 0.6%float /\
  forallb
    (fun p =>
       forallb
         (fun r =>
            PrimFloat.ltb (Binary64.exponent (Binary64.ofZ p) (Binary64.ofZ (r + 1)))
                          (Binary64.exponent (Binary64.ofZ p) (Binary64.ofZ r)))
         (Binary64.integers (-128) 255))
    (Binary64.integers (-256) 256) = true.
Proof. split; vm_compute; reflexivity. Qed.

Example isUUID_yes : isUUID "12345678-90AB-cdef-1234-567890ABCDEF" = true.
Proof. reflexivity. Qed.

Example isUUID_short : isUUID "12345678-90AB-cdef-1234-567890ABCDE" = false.
Proof. reflexivity. Qed.

Example upperASCII_mixed : upperASCII "0x1f-z " = "0X1F-Z ".
Proof. reflexivity. Qed.

(** * Properties *)

(** ** Strings *)

Section Strings.

Lemma append_empty_r (s : string) : s ++ "" = s.
Proof. induction s as [|c s IH]; simpl; congruence. Qed.

Lemma length_append (s t : string) :
  String.length (s ++ t) = (String.length s + String.length t)%nat.
Proof. induction s as [|c s IH]; simpl; congruence. Qed.

Lemma length_take (n : nat) (s : string) :
  String.length (take n s) = Nat.min n (String.length s).
Proof.
  revert s; induction n as [|n IH]; intros [|c s]; simpl; auto.
Qed.

Lemma length_drop (n : nat) (s : string) :
  String.length (drop n s) = (String.length s - n)%nat.
Proof.
  revert s; induction n as [|n IH]; intros [|c s]; simpl; auto.
Qed.

Lemma length_substr (s : string) (start len : nat) :
  (start + len <= String.length s)%nat ->
  String.length (substr s start len) = len.
Proof.
  intros H. unfold substr. rewrite length_take, length_drop. lia.
Qed.

Lemma take_append (p t : string) : take (String.length p) (p ++ t) = p.
Proof. induction p as [|c p IH]; simpl; [destruct t|]; congruence. Qed.

Lemma drop_append (p t : string) : drop (String.length p) (p ++ t) = t.
Proof. induction p as [|c p IH]; simpl; auto. Qed.

Lemma drop_drop (n m : nat) (s : string) :
  drop m (drop n s) = drop (n + m) s.
Proof.
  revert s; induction n as [|n IH]; intros s; simpl; auto.
  destruct s as [|c s]; auto. destruct m; reflexivity.
Qed.

Lemma take_all (n : nat) (s : string) :
  (String.length s <= n)%nat -> take n s = s.
Proof.
  revert s; induction n as [|n IH]; intros [|c s] H; simpl in *;
    try reflexivity; try lia.
  f_equal. apply IH. lia.
Qed.

Lemma take_empty (n : nat) : take n "" = "".
Proof. destruct n; reflexivity. Qed.

Lemma drop_empty (n : nat) : drop n "" = "".
Proof. destruct n; reflexivity. Qed.

Lemma take_take (n m : nat) (s : string) :
  (n <= m)%nat -> take n (take m s) = take n s.
Proof.
  revert m s; induction n as [|n IH]; intros m s H.
  - destruct (take m s), s; reflexivity.
  - destruct m as [|m]; [lia|]. destruct s as [|c s]; simpl; [reflexivity|].
    f_equal. apply IH. lia.
Qed.

Lemma drop_take (k m : nat) (s : string) :
  drop k (take m s) = take (m - k) (drop k s).
Proof.
  revert m s; induction k as [|k IH]; intros m s.
  - rewrite Nat.sub_0_r. reflexivity.
  - destruct s as [|c s].
    + rewrite take_empty, !drop_empty, take_empty. reflexivity.
    + destruct m as [|m]; simpl; [reflexivity|apply IH].
Qed.

(** Reading a field of a prefix that covers it is reading it in the whole. *)
Lemma substr_take (m k n : nat) (s : string) :
  (k + n <= m)%nat -> substr (take m s) k n = substr s k n.
Proof.
  intros H. unfold substr. rewrite drop_take. apply take_take. lia.
Qed.

(** Two adjacent fields are one field of the joint width. *)
Lemma substr_adjacent (s : string) (k n m : nat) :
  substr s k n ++ substr s (k + n) m = substr s k (n + m).
Proof.
  unfold substr. rewrite <- drop_drop. generalize (drop k s) as t.
  induction n as [|n IH]; intros t; simpl.
  - reflexivity.
  - destruct t as [|c t]; simpl.
    + destruct m; reflexivity.
    + f_equal. apply IH.
Qed.

(** A field that lies behind a prefix of known length. *)
Lemma substr_behind (p t : string) (k n : nat) :
  substr (p ++ t) (String.length p + k) n = substr t k n.
Proof.
  unfold substr. rewrite <- drop_drop, drop_append. reflexivity.
Qed.

End Strings.

Lemma drop_all (n : nat) (s : string) :
  (String.length s <= n)%nat -> drop n s = "".
Proof.
  revert s; induction n as [|n IH]; intros [|c s] H; simpl in *;
    try reflexivity; try lia.
  apply IH. lia.
Qed.

Lemma substr_beyond (s : string) (start len : nat) :
  (String.length s <= start)%nat -> substr s start len = "".
Proof.
  intros H. unfold substr. rewrite drop_all by exact H. apply take_empty.
Qed.

(** ** The decoder, field by field *)

(** [parse] completes normally with a record, whose fields are the
    expressions of the source. *)
Lemma parse_fields (now : Z) (s : string) (rssi : number) :
  exists b,
    parse now s rssi = Normal (Some b) /\
    uuid b = substr s 0 8 ++ "-" ++ substr s 8 4 ++ "-" ++ substr s 12 4
             ++ "-" ++ substr s 16 4 ++ "-" ++ substr s 20 12 /\
    joinCode b = numberText (parseInt (substr s 32 4 ++ substr s 36 4) 16) 36 /\
    distance b =
      Math_pow10
        (div (sub (sub (num (parseInt (substr s 40 2) 16)) (Fin 256)) rssi)
             (mul (Fin 10) (Fin 2))) /\
    proximity b =
      (if lt (distance b) (Fin 1) then PROXIMITY.IMMEDIATE
       else if lt (distance b) (Fin 3) then PROXIMITY.NEAR
       else PROXIMITY.FAR) /\
    lastSeen b = now.
Proof.
  eexists. split; [reflexivity|].
  cbn [distance joinCode lastSeen proximity uuid constructor].
  repeat split; reflexivity.
Qed.

Lemma parse_deterministic (now : Z) (s : string) (rssi : number) (b b' : Beacon) :
  parse now s rssi = Normal (Some b) ->
  parse now s rssi = Normal (Some b') -> b = b'.
Proof. congruence. Qed.


(** ** Totality and the missing rejection *)

(** C10: for every input string (the empty string and garbage included) and
    every rssi, [parse] completes normally with a record: it never throws and
    its [null] branch is never taken.  A payload of at most 32 characters
    leaves the join code "NaN", the distance NaN and the proximity "far", and
    so does any payload whose fields do not parse; the empty payload has the
    identity "----". *)
Theorem parse_total (now : Z) (dataString : string) (rssi : number) :
  exists b,
    parse now dataString rssi = Normal (Some b) /\
    (parseInt (substr dataString 32 4 ++ substr dataString 36 4) 16 = None ->
     joinCode b = "NaN") /\
    (parseInt (substr dataString 40 2) 16 = None ->
     distance b = NaN /\ proximity b = PROXIMITY.FAR) /\
    ((String.length dataString <= 32)%nat ->
     joinCode b = "NaN" /\ distance b = NaN /\ proximity b = PROXIMITY.FAR) /\
    (dataString = "" -> uuid b = "----").
Proof.
  destruct (parse_fields now dataString rssi)
    as (b & Hb & Hu & Hj & Hd & Hp & _).
  exists b. split; [exact Hb|].
  assert (Hjoin : parseInt (substr dataString 32 4 ++ substr dataString 36 4) 16
                  = None -> joinCode b = "NaN").
  { intros E. rewrite Hj, E. reflexivity. }
  assert (Hdist : parseInt (substr dataString 40 2) 16 = None ->
                  distance b = NaN /\ proximity b = PROXIMITY.FAR).
  { intros E. rewrite E in Hd. simpl in Hd. rewrite Hp, Hd. split; reflexivity. }
  split; [exact Hjoin|]. split; [exact Hdist|]. split.
  - intros Hlen. split.
    + apply Hjoin. rewrite !substr_beyond by lia. reflexivity.
    + apply Hdist. rewrite substr_beyond by lia. reflexivity.
  - intros ->. rewrite Hu. reflexivity.
Qed.

Lemma parse_total_witness :
  exists b,
    parse 0 "0123456789" (Fin (-70)) = Normal (Some b) /\
    joinCode b = "NaN" /\ distance b = NaN /\ proximity b = "far".
Proof.
  destruct (parse_total 0 "0123456789" (Fin (-70))) as (b & Hb & _ & _ & H & _).
  exists b. split; [exact Hb|]. apply H. simpl. lia.
Defined.

(** C1: on the empty payload, which is too short to hold any field, [parse]
    returns a record and not the absent result: identity "----", join code
    "NaN", distance NaN, proximity "far"; and likewise on a payload of 10
    hexadecimal characters. *)
Theorem parse_short_not_rejected (now : Z) (rssi : number) :
  parse now "" rssi =
    Normal (Some {| distance := NaN; joinCode := "NaN"; lastSeen := now;
                    proximity := "far"; uuid := "----" |}) /\
  parse now "" rssi <> Normal None /\
  parse now "0123456789" rssi =
    Normal (Some {| distance := NaN; joinCode := "NaN"; lastSeen := now;
                    proximity := "far"; uuid := "01234567-89---" |}) /\
  parse now "0123456789" rssi <> Normal None.
Proof.
  assert (E : parse now "" rssi =
    Normal (Some {| distance := NaN; joinCode := "NaN"; lastSeen := now;
                    proximity := "far"; uuid := "----" |})) by reflexivity.
  assert (E' : parse now "0123456789" rssi =
    Normal (Some {| distance := NaN; joinCode := "NaN"; lastSeen := now;
                    proximity := "far"; uuid := "01234567-89---" |}))
    by reflexivity.
  split; [exact E|]. split; [rewrite E; discriminate|].
  split; [exact E'|]. rewrite E'. discriminate.
Qed.

(** ** The identity *)

(** C2, as the code has it: the identity is spelled by the 32 characters at
    offsets 0 to 31 of the payload (no manufacturer marker comes before
    them), cut into groups of 8/4/4/4/12 characters and joined by dashes.  A
    payload of 32 characters or more gives groups of exactly these sizes, 36
    characters in all; a payload that starts with
    1234567890ABCDEF1234567890ABCDEF has the identity
    12345678-90AB-CDEF-1234-567890ABCDEF. *)
Theorem uuid_from_offset_0 (now : Z) (dataString : string) (rssi : number) :
  exists b,
    parse now dataString rssi = Normal (Some b) /\
    uuid b = identityOf (substr dataString 0 32) /\
    ((32 <= String.length dataString)%nat ->
     map String.length (groups [8; 4; 4; 4; 12]%nat (substr dataString 0 32))
       = [8; 4; 4; 4; 12]%nat /\
     String.length (uuid b) = 36%nat) /\
    (forall rest,
       dataString = "1234567890ABCDEF1234567890ABCDEF" ++ rest ->
       uuid b = "12345678-90AB-CDEF-1234-567890ABCDEF").
Proof.
  destruct (parse_fields now dataString rssi) as (b & Hb & Hu & _).
  exists b. split; [exact Hb|].
  assert (Hg : groups [8; 4; 4; 4; 12]%nat (substr dataString 0 32) =
               [substr dataString 0 8; substr dataString 8 4;
                substr dataString 12 4; substr dataString 16 4;
                substr dataString 20 12]).
  { unfold groups. rewrite !drop_drop. simpl Nat.add.
    change (substr dataString 0 32) with (take 32 dataString).
    change (take 8 (take 32 dataString)) with (substr (take 32 dataString) 0 8).
    repeat match goal with
    | |- context [take ?n (drop ?k (take 32 dataString))] =>
        change (take n (drop k (take 32 dataString)))
          with (substr (take 32 dataString) k n)
    end.
    rewrite !substr_take by lia. reflexivity. }
  split; [|split].
  - unfold identityOf. rewrite Hg, Hu. reflexivity.
  - intros Hlen. rewrite Hu, Hg. split.
    + simpl map. rewrite !length_substr by lia. reflexivity.
    + rewrite !length_append, !length_substr by lia. reflexivity.
  - intros rest ->. rewrite Hu. reflexivity.
Qed.

Lemma uuid_from_offset_0_witness :
  exists b,
    parse 0 "1234567890ABCDEF1234567890ABCDEF00030007C6" (Fin (-70))
      = Normal (Some b) /\
    uuid b = "12345678-90AB-CDEF-1234-567890ABCDEF" /\
    String.length (uuid b) = 36%nat.
Proof.
  destruct (uuid_from_offset_0 0 "1234567890ABCDEF1234567890ABCDEF00030007C6"
              (Fin (-70))) as (b & Hb & _ & Hlen & Hex).
  exists b. split; [exact Hb|]. split.
  - apply (Hex "00030007C6"). reflexivity.
  - apply Hlen. simpl. lia.
Defined.

(** C2 as the specification words it fails: with the manufacturer bytes
    AABBCCDD in front of the identity hex, the identity that comes out starts
    with those bytes; and with a marker of 16 characters in front, the
    identity is not the one the characters at offsets 16 to 47 spell. *)
Lemma uuid_not_from_offset_16 :
  (exists b,
     parse 0 "AABBCCDD1234567890ABCDEF1234567890ABCDEF0000000300000007C6"
       (Fin (-70)) = Normal (Some b) /\
     uuid b = "AABBCCDD-1234-5678-90AB-CDEF12345678" /\
     uuid b <> "12345678-90AB-CDEF-1234-567890ABCDEF") /\
  (exists b,
     parse 0 "AABBCCDDAABBCCDD1234567890ABCDEF1234567890ABCDEF00030007C6"
       (Fin (-70)) = Normal (Some b) /\
     uuid b = "AABBCCDD-AABB-CCDD-1234-567890ABCDEF" /\
     identityOf
       (substr "AABBCCDDAABBCCDD1234567890ABCDEF1234567890ABCDEF00030007C6"
          16 32) = "12345678-90AB-CDEF-1234-567890ABCDEF" /\
     uuid b <> identityOf
       (substr "AABBCCDDAABBCCDD1234567890ABCDEF1234567890ABCDEF00030007C6"
          16 32)).
Proof.
  split.
  - destruct (parse_fields 0
      "AABBCCDD1234567890ABCDEF1234567890ABCDEF0000000300000007C6" (Fin (-70)))
      as (b & Hb & Hu & _).
    exists b. split; [exact Hb|]. rewrite Hu. split; [reflexivity|discriminate].
  - destruct (parse_fields 0
      "AABBCCDDAABBCCDD1234567890ABCDEF1234567890ABCDEF00030007C6" (Fin (-70)))
      as (b & Hb & Hu & _).
    exists b. split; [exact Hb|]. rewrite Hu.
    split; [reflexivity|]. split; [reflexivity|discriminate].
Qed.

(** ** Digits, parsing and printing *)

Section Digits.

Variable R : Z.
Hypothesis radix_range : 2 <= R <= 36.

Local Abbreviation horner := (fold_left (fun acc d => acc * R + d)).

Ltac by_cases :=
  cbv zeta in *;
  repeat (match goal with
  | |- context [(?a <=? ?b)] => destruct (Z.leb_spec a b)
  | |- context [(?a <? ?b)] => destruct (Z.ltb_spec a b)
  | |- context [(?a =? ?b)] => destruct (Z.eqb_spec a b)
  | H : context [(?a <=? ?b)] |- _ => destruct (Z.leb_spec a b)
  | H : context [(?a <? ?b)] |- _ => destruct (Z.ltb_spec a b)
  | H : context [(?a =? ?b)] |- _ => destruct (Z.eqb_spec a b)
  end; cbn [andb orb negb] in *).

Lemma code_inj (c c' : ascii) : code c = code c' -> c = c'.
Proof.
  unfold code. intros H. apply N2Z.inj in H.
  rewrite <- (ascii_N_embedding c), <- (ascii_N_embedding c'). congruence.
Qed.

Lemma code_digitChar (d : Z) :
  0 <= d < 36 -> code (digitChar d) = if d <? 10 then 48 + d else 87 + d.
Proof.
  intros H. unfold code, digitChar.
  destruct (Z.ltb_spec d 10); (rewrite N_ascii_embedding; [|lia]);
    rewrite Z2N.id; lia.
Qed.

Lemma digitValue_range (c : ascii) (d : Z) :
  digitValue c = Some d -> 0 <= d < 36.
Proof.
  unfold digitValue. by_cases; intros E; inversion E; lia.
Qed.

Lemma digitValue_digitChar (d : Z) :
  0 <= d < 36 -> digitValue (digitChar d) = Some d.
Proof.
  intros H. unfold digitValue. rewrite code_digitChar by exact H.
  by_cases; try lia; f_equal; lia.
Qed.

Lemma radixDigit_digitChar (d : Z) :
  0 <= d < R -> radixDigit R (digitChar d) = Some d.
Proof.
  intros H. unfold radixDigit. rewrite digitValue_digitChar by lia.
  by_cases; [reflexivity|lia].
Qed.

Lemma radixDigit_range (c : ascii) (d : Z) :
  radixDigit R c = Some d -> digitValue c = Some d /\ 0 <= d < R.
Proof.
  unfold radixDigit. destruct (digitValue c) as [d'|] eqn:E; [|discriminate].
  apply digitValue_range in E. by_cases; intros E'; inversion E'; subst.
  split; [reflexivity|lia].
Qed.

(** A lower-case digit is the character its value is printed as. *)
Lemma digitChar_digitValue (c : ascii) (d : Z) :
  lowerDigit c = true -> digitValue c = Some d -> digitChar d = c.
Proof.
  intros Hl Hd. pose proof (digitValue_range _ _ Hd) as Hr.
  apply code_inj. rewrite code_digitChar by exact Hr.
  revert Hl Hd. unfold lowerDigit, digitValue.
  by_cases; intros Hl Hd; inversion Hd; subst; try discriminate; lia.
Qed.

Lemma lowerDigit_radixDigit (c : ascii) :
  R = 36 -> lowerDigit c = true -> exists d, radixDigit R c = Some d.
Proof.
  intros -> Hlow. revert Hlow. unfold lowerDigit, radixDigit, digitValue.
  by_cases; intros Hlow; try discriminate; try lia; eauto.
Qed.

(** A digit is no white space, no sign and, below radix 34, no x. *)
Lemma digit_not_space (c : ascii) (d : Z) :
  digitValue c = Some d -> isWhiteSpace c = false.
Proof.
  unfold digitValue, isWhiteSpace. by_cases; intros E; try discriminate;
    try reflexivity; lia.
Qed.

Lemma digit_not_char (c a : ascii) (d : Z) :
  digitValue c = Some d -> digitValue a = None -> a <> c.
Proof. intros Hc Ha ->. congruence. Qed.

(** *** The value of a digit string *)

Lemma horner_ge (s : string) (a : Z) :
  0 <= a -> a <= horner (takeDigits R s) a.
Proof.
  revert a; induction s as [|c s IH]; intros a Ha; simpl; [lia|].
  destruct (radixDigit R c) as [d|] eqn:E; simpl; [|lia].
  apply radixDigit_range in E. destruct E as [_ Hd].
  etransitivity; [|apply IH]; nia.
Qed.

Lemma takeDigits_digitChar (d : Z) (s : string) :
  0 <= d < R ->
  takeDigits R (String (digitChar d) s) = d :: takeDigits R s.
Proof.
  intros H. simpl. rewrite radixDigit_digitChar by exact H. reflexivity.
Qed.

(** Printing, then reading: the digits of [n] in front of [acc] read as the
    digits of [acc] carried on from [n]. *)
Lemma digitsBefore_value (fuel : nat) (n : Z) (acc : string) :
  0 <= n < 2 ^ Z.of_nat fuel ->
  horner (takeDigits R (digitsBefore fuel R n acc)) 0
  = horner (takeDigits R acc) n.
Proof.
  revert n acc; induction fuel as [|fuel IH]; intros n acc Hn.
  - simpl in Hn. assert (n = 0) by lia. subst. reflexivity.
  - cbn [digitsBefore]. destruct (Z.leb_spec n 0) as [H0|H0].
    + assert (n = 0) by lia. subst. reflexivity.
    + assert (Hpow : 2 ^ Z.of_nat (S fuel) = 2 * 2 ^ Z.of_nat fuel).
      { rewrite Nat2Z.inj_succ, Z.pow_succ_r by lia. reflexivity. }
      assert (Hm : 0 <= n mod R < R) by (apply Z.mod_pos_bound; lia).
      rewrite IH.
      * rewrite takeDigits_digitChar by exact Hm. cbn [fold_left].
        f_equal. rewrite (Z.div_mod n R) at 3 by lia. lia.
      * split; [apply Z.div_pos; lia|].
        apply Z.div_lt_upper_bound; [lia|].
        assert (0 < 2 ^ Z.of_nat fuel) by (apply Z.pow_pos_nonneg; lia). nia.
Qed.

Lemma allDigits_digitsBefore (fuel : nat) (n : Z) (acc : string) :
  allDigits R acc = true -> allDigits R (digitsBefore fuel R n acc) = true.
Proof.
  revert n acc; induction fuel as [|fuel IH]; intros n acc Hacc;
    cbn [digitsBefore]; [exact Hacc|].
  destruct (n <=? 0); [exact Hacc|]. apply IH. cbn [allDigits].
  rewrite radixDigit_digitChar by (apply Z.mod_pos_bound; lia). exact Hacc.
Qed.

Lemma length_digitsBefore_ge (fuel : nat) (n : Z) (acc : string) :
  (String.length acc <= String.length (digitsBefore fuel R n acc))%nat.
Proof.
  revert n acc; induction fuel as [|fuel IH]; intros n acc;
    cbn [digitsBefore]; [lia|].
  destruct (n <=? 0); [lia|].
  etransitivity; [|apply IH]. simpl. lia.
Qed.

(** A value below [R ^ k] is printed with [k] digits at most. *)
Lemma length_digitsBefore_le (fuel k : nat) (n : Z) (acc : string) :
  0 <= n < R ^ Z.of_nat k ->
  (String.length (digitsBefore fuel R n acc) <= k + String.length acc)%nat.
Proof.
  revert k n acc; induction fuel as [|fuel IH]; intros k n acc Hn;
    cbn [digitsBefore]; [lia|].
  destruct (Z.leb_spec n 0) as [H0|H0]; [lia|].
  destruct k as [|k]; [simpl in Hn; lia|].
  rewrite Nat2Z.inj_succ, Z.pow_succ_r in Hn by lia.
  etransitivity; [apply (IH k)|simpl; lia].
  split; [apply Z.div_pos; lia|]. apply Z.div_lt_upper_bound; lia.
Qed.

(** More fuel than the digits need changes nothing. *)
Lemma digitsBefore_fuel (fuel fuel' : nat) (n : Z) (acc : string) :
  0 <= n < 2 ^ Z.of_nat fuel -> (fuel <= fuel')%nat ->
  digitsBefore fuel R n acc = digitsBefore fuel' R n acc.
Proof.
  revert fuel' n acc; induction fuel as [|fuel IH]; intros fuel' n acc Hn Hf.
  - simpl in Hn. assert (n = 0) by lia. subst. destruct fuel'; reflexivity.
  - destruct fuel' as [|fuel']; [lia|]. cbn [digitsBefore].
    destruct (Z.leb_spec n 0) as [H0|H0]; [reflexivity|].
    apply IH; [|lia].
    rewrite Nat2Z.inj_succ, Z.pow_succ_r in Hn by lia.
    split; [apply Z.div_pos; lia|].
    apply Z.div_lt_upper_bound; [lia|].
    assert (0 < 2 ^ Z.of_nat fuel) by (apply Z.pow_pos_nonneg; lia). nia.
Qed.

Lemma log2_fuel (n : Z) : 0 < n -> 0 <= n < 2 ^ Z.of_nat (S (Z.to_nat (Z.log2 n))).
Proof.
  intros Hn. split; [lia|].
  rewrite Nat2Z.inj_succ, Z2Nat.id by apply Z.log2_nonneg.
  apply Z.log2_spec. exact Hn.
Qed.

Lemma digits_value (n : Z) :
  0 < n -> horner (takeDigits R (digits R n)) 0 = n.
Proof.
  intros Hn. unfold digits. rewrite digitsBefore_value by (apply log2_fuel; lia).
  reflexivity.
Qed.

Lemma digits_allDigits (n : Z) : allDigits R (digits R n) = true.
Proof. apply allDigits_digitsBefore. reflexivity. Qed.

Lemma digits_nonempty (n : Z) : 0 < n -> digits R n <> "".
Proof.
  intros Hn E. unfold digits in E. cbn [digitsBefore] in E.
  destruct (Z.leb_spec n 0) as [H0|H0]; [lia|].
  pose proof (length_digitsBefore_ge (Z.to_nat (Z.log2 n)) (n / R)
                (String (digitChar (n mod R)) "")) as H.
  rewrite E in H. simpl in H. lia.
Qed.

Lemma length_digits (k : nat) (n : Z) :
  0 <= n < R ^ Z.of_nat k -> (String.length (digits R n) <= k)%nat.
Proof.
  intros Hn. unfold digits.
  pose proof (length_digitsBefore_le (S (Z.to_nat (Z.log2 n))) k n "" Hn) as H.
  simpl String.length in H at 2. lia.
Qed.

End Digits.

Section Parsing.

Variable R : Z.
Hypothesis radix_range : 2 <= R <= 36.

Local Abbreviation horner := (fold_left (fun acc d => acc * R + d)).

Lemma ToInt32_radix : ToInt32 R = R.
Proof. unfold ToInt32. rewrite Z.mod_small; lia. Qed.

Lemma prefix_char (a c : ascii) (s : string) :
  a <> c -> prefix (String a "") (String c s) = false.
Proof.
  intros H. cbn [prefix]. destruct (ascii_dec a c); [contradiction|reflexivity].
Qed.

Lemma no_sign (c : ascii) (d : Z) (s : string) :
  digitValue c = Some d ->
  prefix "-" (String c s) = false /\ prefix "+" (String c s) = false.
Proof.
  intros H. split; apply prefix_char; apply (digit_not_char _ _ _ H); reflexivity.
Qed.

(** In radix 16 a string of digits does not start with 0x or 0X. *)
Lemma no_hex_prefix (s : string) :
  R = 16 -> allDigits R s = true ->
  prefix "0x" s = false /\ prefix "0X" s = false.
Proof.
  intros -> H. destruct s as [|c [|c' s]]; [split; reflexivity| |].
  { cbn [prefix]. destruct (ascii_dec "0" c); split; reflexivity. }
  cbn [allDigits] in H. destruct (radixDigit 16 c); [|discriminate].
  destruct (radixDigit 16 c') as [d'|] eqn:E'; [|discriminate].
  assert (Hx : c' <> "x"%char /\ c' <> "X"%char).
  { split; intros ->; discriminate. }
  destruct Hx as [Hx HX]. cbn [prefix].
  destruct (ascii_dec "0" c); split; try reflexivity.
  - destruct (ascii_dec "x" c'); [congruence|reflexivity].
  - destruct (ascii_dec "X" c'); [congruence|reflexivity].
Qed.

(** [parseInt] of a non-empty string of digits is the value they spell. *)
Lemma parseInt_allDigits (s : string) :
  s <> "" -> allDigits R s = true ->
  parseInt s R = Some (horner (takeDigits R s) 0).
Proof.
  intros Hne Hall. destruct s as [|c s]; [contradiction|].
  pose proof Hall as Hc. cbn [allDigits] in Hc.
  destruct (radixDigit R c) as [d|] eqn:E; [|discriminate].
  pose proof (radixDigit_range R c d E) as [Hv Hd].
  unfold parseInt. cbn [trimStart]. rewrite (digit_not_space c d Hv).
  cbv zeta. destruct (no_sign c d s Hv) as [-> ->]. cbn [orb].
  rewrite ToInt32_radix.
  destruct (Z.eqb_spec R 0) as [H0|_]; [lia|].
  destruct (Z.ltb_spec R 2) as [H2|_]; [lia|].
  destruct (Z.ltb_spec 36 R) as [H36|_]; [lia|]. cbn [negb andb orb].
  assert (Hp : (R =? 16) && (prefix "0x" (String c s) || prefix "0X" (String c s))
               = false).
  { destruct (Z.eqb_spec R 16) as [H16|_]; [|reflexivity].
    destruct (no_hex_prefix (String c s) H16 Hall) as [-> ->]. reflexivity. }
  rewrite Hp. cbn [takeDigits]. rewrite E.
  f_equal. unfold mathInt. lia.
Qed.

(** *** Printing what was read *)

Lemma allLower_allDigits (s : string) :
  R = 36 -> allLower s = true -> allDigits R s = true.
Proof.
  intros HR. induction s as [|c s IH]; simpl; [reflexivity|].
  intros H. apply andb_prop in H. destruct H as [Hc Hs].
  destruct (lowerDigit_radixDigit R radix_range c HR Hc) as [d ->]. auto.
Qed.

(** Reading lower-case digits after a positive value, then printing, is
    printing that value in front of the digits. *)
Lemma digitsBefore_read (s : string) :
  allLower s = true -> allDigits R s = true ->
  forall (fuel : nat) (a : Z) (acc : string),
    0 < a -> horner (takeDigits R s) a < 2 ^ Z.of_nat fuel ->
    digitsBefore fuel R (horner (takeDigits R s) a) acc
    = digitsBefore fuel R a (s ++ acc).
Proof.
  induction s as [|c s IH]; intros Hlow Hall fuel a acc Ha Hf.
  - reflexivity.
  - cbn [allLower] in Hlow. apply andb_prop in Hlow. destruct Hlow as [Hc Hs].
    cbn [allDigits] in Hall. cbn [takeDigits fold_left] in *.
    destruct (radixDigit R c) as [d|] eqn:E; [|discriminate].
    pose proof (radixDigit_range R c d E) as [Hv Hd].
    cbn [fold_left] in *.
    pose proof (horner_ge R radix_range s (a * R + d) ltac:(nia)) as Hge.
    rewrite IH by (assumption || nia).
    destruct fuel as [|fuel]; [simpl in Hf; lia|].
    rewrite Nat2Z.inj_succ, Z.pow_succ_r in Hf by lia.
    assert (0 < 2 ^ Z.of_nat fuel) by (apply Z.pow_pos_nonneg; lia).
    transitivity (digitsBefore fuel R a (String c (s ++ acc))).
    + cbn [digitsBefore].
      destruct (Z.leb_spec (a * R + d) 0) as [H0|_]; [nia|].
      replace ((a * R + d) / R) with a by (apply Z.div_unique with d; lia).
      replace ((a * R + d) mod R) with d by (apply Z.mod_unique with a; lia).
      rewrite (digitChar_digitValue c d Hc Hv). reflexivity.
    + apply digitsBefore_fuel; [exact radix_range|nia|lia].
Qed.

End Parsing.

(** ** The join code *)

Section JoinCode.

Lemma radix16 : 2 <= 16 <= 36.
Proof. lia. Qed.

Lemma radix36 : 2 <= 36 <= 36.
Proof. lia. Qed.

Lemma horner_lt (R : Z) (s : string) (a : Z) :
  2 <= R <= 36 -> 0 <= a ->
  fold_left (fun acc d => acc * R + d) (takeDigits R s) a
  < (a + 1) * R ^ Z.of_nat (String.length s).
Proof.
  intros HR. revert a; induction s as [|c s IH]; intros a Ha.
  - simpl. lia.
  - cbn [String.length takeDigits].
    rewrite Nat2Z.inj_succ, Z.pow_succ_r by lia.
    assert (0 < R ^ Z.of_nat (String.length s)) by (apply Z.pow_pos_nonneg; lia).
    destruct (radixDigit R c) as [d|] eqn:E; cbn [fold_left]; [|nia].
    apply radixDigit_range in E. destruct E as [_ Hd].
    eapply Z.lt_le_trans; [apply IH; nia|]. nia.
Qed.

Lemma lowerDigit_digitChar (d : Z) :
  0 <= d < 36 -> lowerDigit (digitChar d) = true.
Proof.
  intros H. unfold lowerDigit. rewrite code_digitChar by exact H.
  cbv zeta.
  destruct (Z.ltb_spec d 10);
    repeat match goal with
    | |- context [(?a <=? ?b)] => destruct (Z.leb_spec a b)
    end; cbn [andb orb]; try reflexivity; lia.
Qed.

Lemma allLower_digitsBefore (fuel : nat) (n : Z) (acc : string) :
  allLower acc = true -> allLower (digitsBefore fuel 36 n acc) = true.
Proof.
  revert n acc; induction fuel as [|fuel IH]; intros n acc Hacc;
    cbn [digitsBefore]; [exact Hacc|].
  destruct (n <=? 0); [exact Hacc|]. apply IH. cbn [allLower].
  rewrite lowerDigit_digitChar by (apply Z.mod_pos_bound; lia). exact Hacc.
Qed.

Lemma digitChar_not_zero (d : Z) : 0 < d < 36 -> digitChar d <> "0"%char.
Proof.
  intros H E. apply (f_equal code) in E. rewrite code_digitChar in E by lia.
  change (code "0") with 48 in E. destruct (Z.ltb_spec d 10); lia.
Qed.

(** The digits printed for a positive value do not start with 0. *)
Lemma digitsBefore_leading (fuel : nat) (n : Z) (acc : string) :
  0 < n < 2 ^ Z.of_nat fuel ->
  prefix "0" (digitsBefore fuel 36 n acc) = false.
Proof.
  revert n acc; induction fuel as [|fuel IH]; intros n acc Hn.
  - simpl in Hn. lia.
  - cbn [digitsBefore]. destruct (Z.leb_spec n 0) as [H0|_]; [lia|].
    rewrite Nat2Z.inj_succ, Z.pow_succ_r in Hn by lia.
    assert (0 < 2 ^ Z.of_nat fuel) by (apply Z.pow_pos_nonneg; lia).
    destruct (Z.ltb_spec n 36) as [Hs|Hl].
    + rewrite Z.div_small, Z.mod_small by lia.
      replace (digitsBefore fuel 36 0 (String (digitChar n) acc))
        with (String (digitChar n) acc) by (destruct fuel; reflexivity).
      apply prefix_char. intros E. symmetry in E. revert E.
      apply digitChar_not_zero. lia.
    + apply IH. split.
      * apply Z.div_str_pos. lia.
      * apply Z.div_lt_upper_bound; lia.
Qed.

(** [toString(36)] writes a value of at least 0 canonically, and the text
    reads back as the value. *)
Lemma numberText_reads (v : Z) :
  0 <= v ->
  canonical36 (numberText (Some v) 36) = true /\
  parseInt (numberText (Some v) 36) 36 = Some v.
Proof.
  intros Hv. unfold numberText.
  destruct (Z.ltb_spec v 0) as [Hneg|_]; [lia|].
  destruct (Z.eqb_spec v 0) as [->|Hnz]; [split; reflexivity|].
  assert (Hpos : 0 < v) by lia.
  pose proof (digits_nonempty 36 v Hpos) as Hne.
  split.
  - unfold canonical36. apply andb_true_intro. split.
    + apply andb_true_intro. split.
      * apply negb_true_iff. apply String.eqb_neq. exact Hne.
      * apply allLower_digitsBefore. reflexivity.
    + apply orb_true_intro. right. apply negb_true_iff.
      apply digitsBefore_leading. pose proof (log2_fuel v Hpos). lia.
  - rewrite (parseInt_allDigits 36 radix36) by
      (exact Hne || apply (digits_allDigits 36 radix36)).
    f_equal. apply (digits_value 36 radix36). exact Hpos.
Qed.

(** What is read from a canonical base-36 string is printed as that string. *)
Lemma numberText_canonical (S : string) :
  canonical36 S = true ->
  numberText (Some (mathInt 36 (takeDigits 36 S))) 36 = S.
Proof.
  unfold canonical36. intros H.
  apply andb_prop in H. destruct H as [H Hlead].
  apply andb_prop in H. destruct H as [Hne Hlow].
  destruct S as [|c S]; [discriminate|]. clear Hne.
  destruct (String.eqb_spec (String c S) "0") as [->|Hnz]; [reflexivity|].
  cbn [orb] in Hlead. apply negb_true_iff in Hlead.
  pose proof (allLower_allDigits 36 radix36 _ eq_refl Hlow) as Hall.
  cbn [allLower] in Hlow. apply andb_prop in Hlow. destruct Hlow as [Hc HS].
  cbn [allDigits] in Hall.
  destruct (radixDigit 36 c) as [d|] eqn:E; [|discriminate].
  pose proof (radixDigit_range 36 c d E) as [Hv Hd].
  assert (Hd0 : 0 < d).
  { destruct (Z.eq_dec d 0) as [->|]; [|lia].
    pose proof (digitChar_digitValue c 0 Hc Hv) as Hz.
    change (digitChar 0) with "0"%char in Hz. subst c.
    cbn [prefix] in Hlead. destruct (ascii_dec "0" "0"); [|congruence].
    destruct S; discriminate. }
  unfold mathInt. cbn [takeDigits]. rewrite E. cbn [fold_left].
  change (0 * 36 + d) with d.
  set (v := fold_left (fun acc d0 => acc * 36 + d0) (takeDigits 36 S) d).
  assert (Hge : d <= v) by (apply (horner_ge 36 radix36); lia).
  unfold numberText.
  destruct (Z.ltb_spec v 0) as [Hneg|_]; [lia|].
  destruct (Z.eqb_spec v 0) as [Hz|_]; [lia|].
  unfold digits. subst v.
  rewrite (digitsBefore_read 36 radix36 S HS Hall)
    by (exact Hd0 || apply log2_fuel; lia).
  rewrite append_empty_r. cbn [digitsBefore].
  destruct (Z.leb_spec d 0) as [H0|_]; [lia|].
  rewrite Z.div_small, Z.mod_small by lia.
  rewrite (digitChar_digitValue c d Hc Hv).
  destruct (Z.to_nat _); reflexivity.
Qed.

End JoinCode.

(** C5: the join code is the base-36 text of [parseInt] of the major field
    (4 characters at offset 32) followed by the minor field (4 characters at
    offset 36).  In a payload of 40 characters or more the two fields are the
    8 characters at offsets 32 to 39; when these are hexadecimal digits,
    [parseInt] gives the integer they spell, which is below 16^8, and the
    join code is its canonical base-36 numeral: lower case, no leading zero,
    reading back as the same integer. *)
Theorem joinCode_from_major_minor (now : Z) (dataString : string) (rssi : number) :
  exists b,
    parse now dataString rssi = Normal (Some b) /\
    Number_toString
      (parseInt (substr dataString 32 4 ++ substr dataString 36 4) 16) 36
      = Normal (joinCode b) /\
    ((40 <= String.length dataString)%nat ->
     String.length (substr dataString 32 4) = 4%nat /\
     String.length (substr dataString 36 4) = 4%nat /\
     substr dataString 32 4 ++ substr dataString 36 4 = substr dataString 32 8 /\
     (allDigits 16 (substr dataString 32 8) = true ->
      let v := mathInt 16 (takeDigits 16 (substr dataString 32 8)) in
      0 <= v < 16 ^ 8 /\
      parseInt (substr dataString 32 4 ++ substr dataString 36 4) 16 = Some v /\
      canonical36 (joinCode b) = true /\
      parseInt (joinCode b) 36 = Some v)).
Proof.
  destruct (parse_fields now dataString rssi) as (b & Hb & _ & Hj & _).
  exists b. split; [exact Hb|]. split; [rewrite Hj; reflexivity|].
  intros Hlen.
  assert (Hcat : substr dataString 32 4 ++ substr dataString 36 4
                 = substr dataString 32 8)
    by apply (substr_adjacent dataString 32 4 4).
  split; [apply length_substr; lia|]. split; [apply length_substr; lia|].
  split; [exact Hcat|]. intros Hhex v.
  assert (Hl8 : String.length (substr dataString 32 8) = 8%nat)
    by (apply length_substr; lia).
  assert (Hv : 0 <= v < 16 ^ 8).
  { unfold v, mathInt. split.
    - apply (horner_ge 16 radix16). lia.
    - pose proof (horner_lt 16 (substr dataString 32 8) 0 radix16 ltac:(lia)) as H.
      rewrite Hl8 in H. exact H. }
  assert (Hp : parseInt (substr dataString 32 8) 16 = Some v).
  { apply (parseInt_allDigits 16 radix16); [|exact Hhex].
    intros E. rewrite E in Hl8. discriminate. }
  split; [exact Hv|]. rewrite Hcat. split; [exact Hp|].
  rewrite Hj, Hcat, Hp. apply numberText_reads. lia.
Qed.

Lemma joinCode_from_major_minor_witness :
  exists b,
    parse 0 "1234567890ABCDEF1234567890ABCDEF00030007C6" (Fin (-70))
      = Normal (Some b) /\
    joinCode b = "47pj" /\
    parseInt (joinCode b) 36 = Some 196615.
Proof.
  destruct (joinCode_from_major_minor 0
              "1234567890ABCDEF1234567890ABCDEF00030007C6" (Fin (-70)))
    as (b & Hb & Hj & H).
  exists b. split; [exact Hb|]. split.
  - change (Normal "47pj" = Normal (joinCode b)) in Hj. congruence.
  - apply H; [simpl; lia|reflexivity].
Defined.

(** ** The round trip of a join code *)

Section Encoding.

Local Abbreviation value16 := (fold_left (fun acc d => acc * 16 + d)).

Lemma length_zeros (k : nat) : String.length (zeros k) = k.
Proof. induction k as [|k IH]; simpl; congruence. Qed.

Lemma allDigits_zeros (k : nat) (h : string) :
  allDigits 16 (zeros k ++ h) = allDigits 16 h.
Proof. induction k as [|k IH]; [reflexivity|exact IH]. Qed.

Lemma value_zeros (k : nat) (h : string) :
  value16 (takeDigits 16 (zeros k ++ h)) 0 = value16 (takeDigits 16 h) 0.
Proof. induction k as [|k IH]; [reflexivity|exact IH]. Qed.

(** The text of a value from 0 below 16^8 in radix 16: digits, eight at
    most, that spell the value. *)
Lemma numberText16 (v : Z) :
  0 <= v < 16 ^ 8 ->
  let h := numberText (Some v) 16 in
  allDigits 16 h = true /\ (String.length h <= 8)%nat /\
  value16 (takeDigits 16 h) 0 = v.
Proof.
  intros Hv h. subst h. unfold numberText.
  destruct (Z.ltb_spec v 0) as [Hneg|_]; [lia|].
  destruct (Z.eqb_spec v 0) as [->|Hnz].
  - repeat split; simpl; lia.
  - split; [apply (digits_allDigits 16 radix16)|]. split.
    + apply (length_digits 16 radix16 8 v). exact Hv.
    + apply (digits_value 16 radix16). lia.
Qed.

(** The eight characters the encoder writes spell the value of [S]. *)
Lemma encodeJoinCode_fields (S : string) :
  canonical36 S = true ->
  mathInt 36 (takeDigits 36 S) < 16 ^ 8 ->
  exists fields,
    encodeJoinCode S = Normal fields /\
    String.length fields = 8%nat /\
    parseInt fields 16 = Some (mathInt 36 (takeDigits 36 S)).
Proof.
  intros Hcan Hlt. set (v := mathInt 36 (takeDigits 36 S)) in *.
  pose proof Hcan as H. unfold canonical36 in H.
  apply andb_prop in H. destruct H as [H _].
  apply andb_prop in H. destruct H as [Hne Hlow].
  apply negb_true_iff, String.eqb_neq in Hne.
  pose proof (allLower_allDigits 36 radix36 S eq_refl Hlow) as Hall.
  assert (Hv : 0 <= v) by (apply (horner_ge 36 radix36); lia).
  assert (Hp : parseInt S 36 = Some v)
    by (apply (parseInt_allDigits 36 radix36); assumption).
  destruct (numberText16 v ltac:(lia)) as (Hd & Hl & Hval).
  set (h := numberText (Some v) 16) in *.
  exists (padStart0 h 8). split; [|split].
  - unfold encodeJoinCode. rewrite Hp. reflexivity.
  - unfold padStart0. rewrite length_append, length_zeros. lia.
  - unfold padStart0.
    rewrite (parseInt_allDigits 16 radix16).
    + rewrite value_zeros, Hval. reflexivity.
    + intros E. apply (f_equal String.length) in E.
      rewrite length_append, length_zeros in E. simpl in E.
      assert (String.length h <> 0%nat); [|lia].
      subst h. unfold numberText.
      destruct (v <? 0); [discriminate|]. destruct (Z.eqb_spec v 0); [discriminate|].
      intros E'. apply (digits_nonempty 16 v ltac:(lia)).
      destruct (digits 16 v); [reflexivity|discriminate].
    + rewrite allDigits_zeros. exact Hd.
Qed.

End Encoding.

(** C6, as the code has it: a base-36 string round-trips when it is one that
    [toString(36)] can write (digits 0-9 and a-z, no leading zero but in
    "0") and its value is below 16^8, the most eight hexadecimal digits
    hold.  Encoded after any 32-character identity and before any power
    field, it is decoded as itself. *)
Theorem joinCode_round_trip (now : Z) (identity S power : string) (rssi : number) :
  String.length identity = 32%nat ->
  canonical36 S = true ->
  mathInt 36 (takeDigits 36 S) < 16 ^ 8 ->
  exists payload b,
    encodePayload identity S power = Normal payload /\
    parse now payload rssi = Normal (Some b) /\
    joinCode b = S.
Proof.
  intros Hid Hcan Hlt.
  destruct (encodeJoinCode_fields S Hcan Hlt) as (fields & Hf & Hl & Hp).
  set (major := substr fields 0 4). set (minor := substr fields 4 4).
  exists (identity ++ major ++ minor ++ power).
  destruct (parse_fields now (identity ++ major ++ minor ++ power) rssi)
    as (b & Hb & _ & Hj & _).
  exists b. split; [|split; [exact Hb|]].
  - unfold encodePayload. rewrite Hf. reflexivity.
  - assert (Hmaj : String.length major = 4%nat)
      by (apply length_substr; lia).
    assert (Hmin : String.length minor = 4%nat)
      by (apply length_substr; lia).
    assert (H32 : substr (identity ++ major ++ minor ++ power) 32 4 = major).
    { replace 32%nat with (String.length identity + 0)%nat by lia.
      rewrite substr_behind. unfold substr. cbn [drop].
      rewrite <- Hmaj. apply take_append. }
    assert (H36 : substr (identity ++ major ++ minor ++ power) 36 4 = minor).
    { replace 36%nat with (String.length identity + 4)%nat by lia.
      rewrite substr_behind.
      replace 4%nat with (String.length major + 0)%nat at 1 by lia.
      rewrite substr_behind. unfold substr. cbn [drop].
      rewrite <- Hmin. apply take_append. }
    assert (Hcat : major ++ minor = fields).
    { unfold major, minor.
      change (substr fields 4 4) with (substr fields (0 + 4) 4).
      rewrite (substr_adjacent fields 0 4 4).
      unfold substr. cbn [drop]. apply take_all. lia. }
    rewrite Hj, H32, H36, Hcat, Hp. apply numberText_canonical. exact Hcan.
Qed.

Lemma joinCode_round_trip_witness :
  exists payload b,
    encodePayload "1234567890ABCDEF1234567890ABCDEF" "spot42" "C6"
      = Normal payload /\
    parse 0 payload (Fin (-70)) = Normal (Some b) /\
    joinCode b = "spot42".
Proof.
  apply (joinCode_round_trip 0 "1234567890ABCDEF1234567890ABCDEF" "spot42" "C6"
           (Fin (-70))).
  - reflexivity.
  - reflexivity.
  - vm_compute. reflexivity.
Defined.

(** C6 as the specification words it fails on three kinds of base-36
    string: one with a leading zero comes back without it, one in upper case
    comes back in lower case, and one whose value does not fit eight
    hexadecimal digits comes back as another code. *)
Lemma joinCode_round_trip_fails :
  (base36 "01" = true /\
   exists b,
     encodePayload "1234567890ABCDEF1234567890ABCDEF" "01" "C6"
       = Normal "1234567890ABCDEF1234567890ABCDEF00000001C6" /\
     parse 0 "1234567890ABCDEF1234567890ABCDEF00000001C6" (Fin (-70))
       = Normal (Some b) /\
     joinCode b = "1" /\ joinCode b <> "01") /\
  (base36 "A" = true /\
   exists b,
     encodePayload "1234567890ABCDEF1234567890ABCDEF" "A" "C6"
       = Normal "1234567890ABCDEF1234567890ABCDEF0000000aC6" /\
     parse 0 "1234567890ABCDEF1234567890ABCDEF0000000aC6" (Fin (-70))
       = Normal (Some b) /\
     joinCode b = "a" /\ joinCode b <> "A") /\
  (base36 "zzzzzzz" = true /\
   exists b,
     encodePayload "1234567890ABCDEF1234567890ABCDEF" "zzzzzzz" "C6"
       = Normal "1234567890ABCDEF1234567890ABCDEF123ede3fC6" /\
     parse 0 "1234567890ABCDEF1234567890ABCDEF123ede3fC6" (Fin (-70))
       = Normal (Some b) /\
     joinCode b = "528zzz" /\ joinCode b <> "zzzzzzz").
Proof.
  split; [|split]; (split; [reflexivity|]).
  - destruct (parse_fields 0 "1234567890ABCDEF1234567890ABCDEF00000001C6"
                (Fin (-70))) as (b & Hb & _ & Hj & _).
    exists b. split; [reflexivity|]. split; [exact Hb|]. rewrite Hj.
    split; [reflexivity|discriminate].
  - destruct (parse_fields 0 "1234567890ABCDEF1234567890ABCDEF0000000aC6"
                (Fin (-70))) as (b & Hb & _ & Hj & _).
    exists b. split; [reflexivity|]. split; [exact Hb|]. rewrite Hj.
    split; [reflexivity|discriminate].
  - destruct (parse_fields 0 "1234567890ABCDEF1234567890ABCDEF123ede3fC6"
                (Fin (-70))) as (b & Hb & _ & Hj & _).
    exists b. split; [reflexivity|]. split; [exact Hb|]. rewrite Hj.
    split; [reflexivity|discriminate].
Qed.

(** ** Numbers *)

Section Numbers.

Local Open Scope R_scope.

Lemma Rltb_true (a b : R) : Rltb a b = true <-> a < b.
Proof.
  unfold Rltb. destruct (Rlt_dec a b); split; intros; try assumption;
    try reflexivity; try discriminate; contradiction.
Qed.

Lemma Rltb_false (a b : R) : Rltb a b = false <-> b <= a.
Proof.
  unfold Rltb. destruct (Rlt_dec a b); split; intros; try reflexivity;
    try discriminate; lra.
Qed.

Lemma Reqb_true (a b : R) : Reqb a b = true <-> a = b.
Proof.
  unfold Reqb. destruct (Req_dec_T a b); split; intros; try assumption;
    try reflexivity; try discriminate; contradiction.
Qed.

Lemma Reqb_false (a b : R) : Reqb a b = false <-> a <> b.
Proof.
  unfold Reqb. destruct (Req_dec_T a b); split; intros; try assumption;
    try reflexivity; try discriminate; contradiction.
Qed.

(** Division by the path-loss constant [10 * 2] and by [10]. *)
Lemma div_positive (x : number) (c : R) :
  0 < c ->
  div x (Fin c) =
    match x with
    | NaN => NaN
    | Inf s => Inf s
    | Fin a => Fin (a / c)
    end.
Proof.
  intros Hc. destruct x as [|s|a]; simpl.
  - reflexivity.
  - replace (Rltb c 0) with false by (symmetry; apply Rltb_false; lra).
    destruct s; reflexivity.
  - replace (Reqb c 0) with false by (symmetry; apply Reqb_false; lra).
    reflexivity.
Qed.

Lemma Rpower10_pos (e : R) : 0 < Rpower 10 e.
Proof. unfold Rpower. apply exp_pos. Qed.


(** 10^0.6 lies between 3.98 and 3.99: its fifth power is 1000. *)
Lemma Rpower10_six_tenths : 398 / 100 < Rpower 10 (6 / 10) < 399 / 100.
Proof.
  set (x := Rpower 10 (6 / 10)).
  assert (Hx : 0 < x) by apply Rpower10_pos.
  assert (H5 : x ^ 5 = 1000).
  { rewrite <- (Rpower_pow 5 x Hx). unfold x. rewrite Rpower_mult.
    replace (6 / 10 * INR 5) with (INR 3) by (simpl; lra).
    rewrite Rpower_pow by lra. simpl. lra. }
  split.
  - destruct (Rlt_le_dec (398 / 100) x) as [H|H]; [exact H|exfalso].
    assert (x ^ 5 <= (398 / 100) ^ 5) by (apply pow_incr; lra).
    assert ((398 / 100) ^ 5 < 1000) by (simpl; lra). lra.
  - destruct (Rlt_le_dec x (399 / 100)) as [H|H]; [exact H|exfalso].
    assert ((399 / 100) ^ 5 <= x ^ 5) by (apply pow_incr; lra).
    assert (1000 < (399 / 100) ^ 5) by (simpl; lra). lra.
Qed.

End Numbers.

(** ** Transmit power, distance and proximity *)

Section Distance.

Local Open Scope R_scope.

(** The distance of a payload whose power field parses, at a real rssi. *)
Lemma distance_real (now : Z) (s : string) (v : Z) (r : R) (b : Beacon) :
  parse now s (Fin r) = Normal (Some b) ->
  parseInt (substr s 40 2) 16 = Some v ->
  distance b = Fin (Rpower 10 ((IZR v - 256 - r) / (10 * 2))).
Proof.
  intros Hb Hv.
  destruct (parse_fields now s (Fin r)) as (b' & Hb' & _ & _ & Hd & _).
  rewrite (parse_deterministic _ _ _ _ _ Hb Hb'), Hd, Hv.
  change (mul (Fin 10) (Fin 2)) with (Fin (10 * 2)).
  rewrite div_positive by lra. reflexivity.
Qed.

(** The proximity of a record that [parse] made, by its real distance. *)
Lemma proximity_real (now : Z) (s : string) (rssi : number) (x : R) (b : Beacon) :
  parse now s rssi = Normal (Some b) ->
  distance b = Fin x ->
  (x < 1 -> proximity b = "immediate"%string) /\
  (1 <= x < 3 -> proximity b = "near"%string) /\
  (3 <= x -> proximity b = "far"%string).
Proof.
  intros Hb Hx.
  destruct (parse_fields now s rssi) as (b' & Hb' & _ & _ & _ & Hp & _).
  rewrite <- (parse_deterministic _ _ _ _ _ Hb Hb') in Hp.
  rewrite Hp, Hx. cbn [lt]. repeat split; intros H.
  - replace (Rltb x 1) with true by (symmetry; apply Rltb_true; lra).
    reflexivity.
  - replace (Rltb x 1) with false by (symmetry; apply Rltb_false; lra).
    replace (Rltb x 3) with true by (symmetry; apply Rltb_true; lra).
    reflexivity.
  - replace (Rltb x 1) with false by (symmetry; apply Rltb_false; lra).
    replace (Rltb x 3) with false by (symmetry; apply Rltb_false; lra).
    reflexivity.
Qed.

End Distance.



(** C4: the proximity of a decoded record is a function of its distance
    alone: "immediate" below 1, "near" from 1 to below 3, "far" from 3 on
    (and for the infinite and NaN distances); so a distance of exactly 1 is
    "near" and of exactly 3 is "far", and "unknown" is never assigned. *)
Theorem proximity_from_distance (now : Z) (dataString : string) (rssi : number) :
  exists b,
    parse now dataString rssi = Normal (Some b) /\
    proximity b =
      (if lt (distance b) (Fin 1) then PROXIMITY.IMMEDIATE
       else if lt (distance b) (Fin 3) then PROXIMITY.NEAR
       else PROXIMITY.FAR) /\
    (forall x : R,
       distance b = Fin x ->
       ((x < 1)%R -> proximity b = PROXIMITY.IMMEDIATE) /\
       ((1 <= x < 3)%R -> proximity b = PROXIMITY.NEAR) /\
       ((3 <= x)%R -> proximity b = PROXIMITY.FAR)) /\
    (distance b = Fin 1 -> proximity b = PROXIMITY.NEAR) /\
    (distance b = Fin 3 -> proximity b = PROXIMITY.FAR) /\
    (distance b = NaN \/ distance b = Inf false -> proximity b = PROXIMITY.FAR) /\
    distance b <> Inf true /\
    proximity b <> PROXIMITY.UNKNOWN.
Proof.
  destruct (parse_fields now dataString rssi)
    as (b & Hb & _ & _ & Hd & Hp & _).
  exists b. split; [exact Hb|]. split; [exact Hp|].
  pose proof (fun x => proximity_real now dataString rssi x b Hb) as Hreal.
  split; [exact Hreal|]. split; [|split; [|split; [|split]]].
  - intros H. apply (Hreal 1%R H). lra.
  - intros H. apply (Hreal 3%R H). lra.
  - intros [H|H]; rewrite Hp, H; reflexivity.
  - rewrite Hd. unfold Math_pow10.
    destruct (div _ _) as [|[|]|e]; discriminate.
  - rewrite Hp. destruct (lt _ _); [discriminate|].
    destruct (lt _ _); discriminate.
Qed.

(** A payload with the power byte C6 (-58) heard at rssi -58 is at distance
    exactly 1, and "near". *)
Lemma proximity_from_distance_witness :
  exists b,
    parse 0 "1234567890ABCDEF1234567890ABCDEF00030007C6" (Fin (-58))
      = Normal (Some b) /\
    distance b = Fin 1 /\ proximity b = "near".
Proof.
  destruct (proximity_from_distance 0
              "1234567890ABCDEF1234567890ABCDEF00030007C6" (Fin (-58)))
    as (b & Hb & _ & _ & Hnear & _).
  assert (Hd : distance b = Fin 1).
  { rewrite (distance_real 0 _ 198 (-58) b Hb eq_refl). f_equal.
    replace ((198 - 256 - -58) / (10 * 2))%R with 0%R by lra.
    apply Rpower_O. lra. }
  exists b. split; [exact Hb|]. split; [exact Hd|]. apply Hnear. exact Hd.
Defined.

(** ** Monotonicity of the distance *)

(** The distance of a payload whose power field parses, at any rssi. *)
Lemma distance_cases (now : Z) (s : string) (v : Z) (rssi : number) :
  parseInt (substr s 40 2) 16 = Some v ->
  exists b,
    parse now s rssi = Normal (Some b) /\
    distance b =
      match rssi with
      | NaN => NaN
      | Inf true => Inf false
      | Inf false => Fin 0
      | Fin r => Fin (Rpower 10 ((IZR v - 256 - r) / (10 * 2)))
      end.
Proof.
  intros Hv.
  destruct (parse_fields now s rssi) as (b & Hb & _ & _ & Hd & _).
  exists b. split; [exact Hb|]. rewrite Hd, Hv.
  change (mul (Fin 10) (Fin 2)) with (Fin (10 * 2)).
  rewrite div_positive by lra. destruct rssi as [|[|]|r]; reflexivity.
Qed.




(** ** Rounding the distance *)

Section Rounding.

Local Open Scope R_scope.



End Rounding.




(** ** The lenient comparison *)

(** C7, as the code has it: [isEqual] never throws.  Its result is the
    boolean true exactly when [b] is a record with the same uuid, the same
    join code and a strictly equal rounded distance; for a record it is a
    boolean, and neither proximity nor lastSeen bears on it; for an absent
    [b] it is [b] itself, null or undefined, which is falsy but is not the
    boolean false. *)
Theorem isEqual_lenient (this : Beacon) (b : ref Beacon) :
  (exists v, isEqual this b = Normal v) /\
  (isEqual this b = Normal (VBoolean true) <->
   exists o, b = Object o /\ uuid o = uuid this /\ joinCode o = joinCode this /\
             strictEquals (getRoundedDistance o) (getRoundedDistance this) = true) /\
  (forall o, b = Object o ->
     isEqual this b =
       Normal (VBoolean ((uuid o =? uuid this)%string
                         && (joinCode o =? joinCode this)%string
                         && strictEquals (getRoundedDistance o)
                                         (getRoundedDistance this))) /\
     forall (p p' : string) (l l' : Z),
       isEqual
         {| distance := distance this; joinCode := joinCode this;
            lastSeen := l; proximity := p; uuid := uuid this |}
         (Object {| distance := distance o; joinCode := joinCode o;
                    lastSeen := l'; proximity := p'; uuid := uuid o |})
       = isEqual this b) /\
  (ToBoolean b = false ->
     isEqual this b = Normal (VRef b) /\ truthy (VRef b) = false).
Proof.
  assert (Hobj : forall t o,
            isEqual t (Object o) =
              Normal (VBoolean ((uuid o =? uuid t)%string
                                && (joinCode o =? joinCode t)%string
                                && strictEquals (getRoundedDistance o)
                                                (getRoundedDistance t)))).
  { intros t o. unfold isEqual, member, bind.
    destruct (uuid o =? uuid t)%string; [|reflexivity].
    destruct (joinCode o =? joinCode t)%string; reflexivity. }
  split; [|split; [|split]].
  - destruct b as [| |o]; [eexists; reflexivity ..|].
    rewrite Hobj. eexists. reflexivity.
  - split.
    + destruct b as [| |o]; intros E; try discriminate E.
      rewrite Hobj in E. injection E as E'. apply andb_prop in E'. destruct E' as [E' Hd].
      apply andb_prop in E'. destruct E' as [Hu Hj].
      apply String.eqb_eq in Hu, Hj. exists o. auto.
    + intros (o & -> & Hu & Hj & Hd). rewrite Hobj, Hu, Hj, Hd.
      rewrite !String.eqb_refl. reflexivity.
  - intros o ->. split; [apply Hobj|]. intros p p' l l'. rewrite !Hobj.
    reflexivity.
  - intros Hb. unfold isEqual. rewrite Hb. split; [reflexivity|exact Hb].
Qed.

Lemma isEqual_lenient_witness :
  isEqual (constructor 1 "u" "j" (Fin (234 / 100)) "near")
          (Object (constructor 2 "u" "j" (Fin (234 / 100)) "far"))
  = Normal (VBoolean true).
Proof.
  apply (isEqual_lenient (constructor 1 "u" "j" (Fin (234 / 100)) "near")
           (Object (constructor 2 "u" "j" (Fin (234 / 100)) "far"))).
  eexists. split; [reflexivity|]. split; [reflexivity|]. split; [reflexivity|].
  unfold getRoundedDistance. cbn [distance constructor mul Math_round].
  rewrite div_positive by lra. cbn [strictEquals]. apply Reqb_true. reflexivity.
Defined.

(** C7 as the specification words it fails on an absent [b]: the result is
    then null, or undefined, and not the boolean false. *)
Lemma isEqual_absent_not_false :
  isEqual (constructor 0 "u" "j" (Fin 1) "near") Null = Normal (VRef Null) /\
  isEqual (constructor 0 "u" "j" (Fin 1) "near") Null <> Normal (VBoolean false) /\
  isEqual (constructor 0 "u" "j" (Fin 1) "near") Undefined
    = Normal (VRef Undefined) /\
  isEqual (constructor 0 "u" "j" (Fin 1) "near") Undefined
    <> Normal (VBoolean false).
Proof. repeat split; discriminate. Qed.

(** * Further properties of the record and of the decoder *)

Section Comparison.

Local Open Scope R_scope.

(** The rounded distance, by the kind of the distance. *)
Lemma getRoundedDistance_cases (b : Beacon) :
  getRoundedDistance b =
    match distance b with
    | NaN => NaN
    | Inf s => Inf s
    | Fin x => Fin (IZR (Zfloor (x * 10 + / 2)) / 10)
    end.
Proof.
  unfold getRoundedDistance. destruct (distance b) as [|s|x].
  - reflexivity.
  - cbn [mul].
    replace (Reqb 10 0) with false by (symmetry; apply Reqb_false; lra).
    replace (Rltb 10 0) with false by (symmetry; apply Rltb_false; lra).
    rewrite xorb_false_r. cbn [Math_round]. rewrite div_positive by lra.
    reflexivity.
  - cbn [mul Math_round]. rewrite div_positive by lra. reflexivity.
Qed.

(** [isEqual] on a record: the three comparisons of the source. *)
Lemma isEqual_Object (this o : Beacon) :
  isEqual this (Object o) =
    Normal (VBoolean ((uuid o =? uuid this)%string
                      && (joinCode o =? joinCode this)%string
                      && strictEquals (getRoundedDistance o)
                                      (getRoundedDistance this))).
Proof.
  unfold isEqual, member, bind. cbn [ToBoolean negb].
  destruct (uuid o =? uuid this)%string; [|reflexivity].
  destruct (joinCode o =? joinCode this)%string; reflexivity.
Qed.

Lemma strictEquals_sym (x y : number) : strictEquals x y = strictEquals y x.
Proof.
  destruct x as [|s|a], y as [|t|b]; try reflexivity; cbn [strictEquals].
  - destruct s, t; reflexivity.
  - unfold Reqb. destruct (Req_dec_T a b), (Req_dec_T b a); congruence.
Qed.

Lemma strictEquals_eq (x y : number) :
  strictEquals x y = true <-> x = y /\ x <> NaN.
Proof.
  destruct x as [|s|a], y as [|t|b]; cbn [strictEquals]; split;
    try discriminate; try (intros [E _]; discriminate E);
    try (intros [_ E]; congruence).
  - intros E. apply Bool.eqb_prop in E. subst. split; [reflexivity|discriminate].
  - intros [E _]. injection E as ->. apply Bool.eqb_reflx.
  - intros E. apply Reqb_true in E. subst. split; [reflexivity|discriminate].
  - intros [E _]. injection E as ->. apply Reqb_true. reflexivity.
Qed.

End Comparison.

(** ** The comparison as a relation *)

(** X1: [isEqual] gives the same answer whichever of two records is asked about
    the other. *)
Theorem isEqual_symmetric (a b : Beacon) :
  isEqual a (Object b) = isEqual b (Object a).
Proof.
  rewrite !isEqual_Object.
  rewrite (String.eqb_sym (uuid b)), (String.eqb_sym (joinCode b)).
  rewrite (strictEquals_sym (getRoundedDistance b)). reflexivity.
Qed.

(** X2: Records equal to a common record are equal to each other. *)
Theorem isEqual_transitive (a b c : Beacon) :
  isEqual a (Object b) = Normal (VBoolean true) ->
  isEqual b (Object c) = Normal (VBoolean true) ->
  isEqual a (Object c) = Normal (VBoolean true).
Proof.
  rewrite !isEqual_Object. intros Hab Hbc.
  injection Hab as Hab. injection Hbc as Hbc.
  apply andb_prop in Hab. destruct Hab as [Hab Hd].
  apply andb_prop in Hab. destruct Hab as [Hu Hj].
  apply andb_prop in Hbc. destruct Hbc as [Hbc Hd'].
  apply andb_prop in Hbc. destruct Hbc as [Hu' Hj'].
  apply String.eqb_eq in Hu, Hj, Hu', Hj'.
  apply strictEquals_eq in Hd, Hd'. destruct Hd as [Hd Hn], Hd' as [Hd' Hn'].
  rewrite Hu', Hu, Hj', Hj, !String.eqb_refl. cbn [andb]. do 2 f_equal.
  apply strictEquals_eq. split; congruence.
Qed.

Lemma isEqual_transitive_witness :
  isEqual (constructor 1 "u" "j" (Fin (234 / 100)) "near")
          (Object (constructor 3 "u" "j" (Fin (226 / 100)) "far"))
  = Normal (VBoolean true).
Proof.
  assert (H : forall x y n m p q,
            Zfloor (x * 10 + / 2) = 23 -> Zfloor (y * 10 + / 2) = 23 ->
            isEqual (constructor n "u" "j" (Fin x) p)
                    (Object (constructor m "u" "j" (Fin y) q))
            = Normal (VBoolean true)).
  { intros x y n m p q Hx Hy. rewrite isEqual_Object, !getRoundedDistance_cases.
    cbn [distance uuid joinCode constructor]. rewrite Hx, Hy.
    cbn [strictEquals]. replace (Reqb _ _) with true; [reflexivity|].
    symmetry. apply Reqb_true. reflexivity. }
  apply (isEqual_transitive _ (constructor 2 "u" "j" (Fin (230 / 100)) "near")).
  - apply H; apply Zfloor_eq; lra.
  - apply H; apply Zfloor_eq; lra.
Defined.

(** X3: A record is equal to itself exactly when its distance is not NaN. *)
Theorem isEqual_reflexive_iff (b : Beacon) :
  isEqual b (Object b) = Normal (VBoolean true) <-> distance b <> NaN.
Proof.
  rewrite isEqual_Object, !String.eqb_refl. cbn [andb]. split.
  - intros E. injection E as E. apply strictEquals_eq in E.
    destruct E as [_ E]. rewrite getRoundedDistance_cases in E.
    intros Hd. rewrite Hd in E. contradiction.
  - intros Hd. do 2 f_equal. apply strictEquals_eq. split; [reflexivity|].
    rewrite getRoundedDistance_cases. destruct (distance b); congruence.
Qed.

(** ** How close equal records are *)



(** ** More on the rounding *)

(** X5: Rounding a rounded distance changes nothing. *)
Theorem getRoundedDistance_idempotent (now : Z) (u j p : string) (b : Beacon) :
  getRoundedDistance (constructor now u j (getRoundedDistance b) p)
  = getRoundedDistance b.
Proof.
  rewrite (getRoundedDistance_cases (constructor _ _ _ _ _)).
  cbn [distance constructor]. rewrite getRoundedDistance_cases.
  destruct (distance b) as [|s|x]; try reflexivity.
  do 2 f_equal. f_equal. apply Zfloor_eq. lra.
Qed.

(** X6: The rounding keeps the order of finite distances. *)
Theorem getRoundedDistance_monotone (a b : Beacon) (x y : R) :
  distance a = Fin x -> distance b = Fin y -> (x <= y)%R ->
  lt (getRoundedDistance b) (getRoundedDistance a) = false.
Proof.
  intros Hx Hy Hle. rewrite !getRoundedDistance_cases, Hx, Hy. cbn [lt].
  apply Rltb_false.
  assert (H : (Zfloor (x * 10 + / 2) <= Zfloor (y * 10 + / 2))%Z)
    by (apply Zfloor_le; lra).
  apply IZR_le in H. lra.
Qed.

Lemma getRoundedDistance_monotone_witness :
  lt (getRoundedDistance (constructor 0 "u" "j" (Fin 3) "far"))
     (getRoundedDistance (constructor 0 "u" "j" (Fin (245 / 100)) "near"))
  = false.
Proof.
  apply (getRoundedDistance_monotone
           (constructor 0 "u" "j" (Fin (245 / 100)) "near")
           (constructor 0 "u" "j" (Fin 3) "far") (245 / 100) 3 eq_refl eq_refl).
  lra.
Defined.

(** ** What the decoder reads and what it leaves *)

Lemma drop_append_le (k : nat) (s t : string) :
  (k <= String.length s)%nat -> drop k (s ++ t) = drop k s ++ t.
Proof.
  revert s; induction k as [|k IH]; intros s H; [reflexivity|].
  destruct s as [|c s]; simpl in *; [lia|]. apply IH. lia.
Qed.

Lemma take_append_le (n : nat) (s t : string) :
  (n <= String.length s)%nat -> take n (s ++ t) = take n s.
Proof.
  revert s; induction n as [|n IH]; intros s H.
  - destruct s, t; reflexivity.
  - destruct s as [|c s]; simpl in *; [lia|]. f_equal. apply IH. lia.
Qed.

Lemma substr_append_l (s t : string) (k n : nat) :
  (k + n <= String.length s)%nat -> substr (s ++ t) k n = substr s k n.
Proof.
  intros H. unfold substr. rewrite drop_append_le by lia.
  apply take_append_le. rewrite length_drop. lia.
Qed.

(** X7: Whatever follows the 42 characters of the fields is ignored: a longer
    payload decodes as its first 42 characters do. *)
Theorem parse_ignores_trailing (now : Z) (s t : string) (rssi : number) :
  (42 <= String.length s)%nat ->
  parse now (s ++ t) rssi = parse now s rssi.
Proof.
  intros H. unfold parse. rewrite !substr_append_l by lia. reflexivity.
Qed.

Lemma parse_ignores_trailing_witness :
  parse 0 ("1234567890ABCDEF1234567890ABCDEF00030007C6" ++ "0102") (Fin (-70))
  = parse 0 "1234567890ABCDEF1234567890ABCDEF00030007C6" (Fin (-70)).
Proof.
  apply (parse_ignores_trailing 0 "1234567890ABCDEF1234567890ABCDEF00030007C6").
  simpl. lia.
Defined.

(** X8: The identity of any payload is its first 32 characters, or all of them
    when there are fewer, and four dashes: a payload of [n] characters has an
    identity of [min 32 n + 4]. *)
Theorem uuid_length (now : Z) (s : string) (rssi : number) :
  exists b,
    parse now s rssi = Normal (Some b) /\
    String.length (uuid b) = (Nat.min 32 (String.length s) + 4)%nat.
Proof.
  destruct (parse_fields now s rssi) as (b & Hb & Hu & _).
  exists b. split; [exact Hb|]. rewrite Hu, !length_append.
  unfold substr. rewrite !length_take, !length_drop. simpl String.length. lia.
Qed.

(** ** The distance of a decoded record *)

Section DecodedDistance.

Local Open Scope R_scope.

(** The distance [parse] computes, by what the power field and the rssi
    are. *)
Lemma distance_kinds (now : Z) (s : string) (rssi : number) :
  exists b,
    parse now s rssi = Normal (Some b) /\
    distance b =
      match parseInt (substr s 40 2) 16, rssi with
      | None, _ => NaN
      | Some _, NaN => NaN
      | Some _, Inf true => Inf false
      | Some _, Inf false => Fin 0
      | Some v, Fin r => Fin (Rpower 10 ((IZR v - 256 - r) / (10 * 2)))
      end.
Proof.
  destruct (parseInt (substr s 40 2) 16) as [v|] eqn:E.
  - destruct (distance_cases now s v rssi E) as (b & Hb & Hd).
    exists b. split; [exact Hb|]. rewrite Hd. destruct rssi as [|[|]|r]; reflexivity.
  - destruct (parse_fields now s rssi) as (b & Hb & _ & _ & Hd & _).
    exists b. split; [exact Hb|]. rewrite Hd, E. reflexivity.
Qed.

Lemma Rpower10_lt_1 (e : R) : e < 0 -> Rpower 10 e < 1.
Proof.
  intros H. rewrite <- (Rpower_O 10) by lra. apply Rpower_lt; lra.
Qed.

Lemma Rpower10_ge_1 (e : R) : 0 <= e -> 1 <= Rpower 10 e.
Proof.
  intros H. rewrite <- (Rpower_O 10) at 1 by lra. apply Rle_Rpower; lra.
Qed.

Lemma Rpower10_le (e e' : R) : e <= e' -> Rpower 10 e <= Rpower 10 e'.
Proof. intros H. apply Rle_Rpower; lra. Qed.

(** 10^(9/20) is below 3, as 10^9 is below 3^20; 10^(1/2) is not, as 10 is
    not below 9. *)
Lemma Rpower10_nine_twentieths : Rpower 10 (9 / 20) < 3.
Proof.
  set (x := Rpower 10 (9 / 20)).
  assert (Hx : 0 < x) by apply Rpower10_pos.
  assert (H20 : x ^ 20 = 10 ^ 9).
  { rewrite <- (Rpower_pow 20 x Hx). unfold x. rewrite Rpower_mult.
    replace (9 / 20 * INR 20) with (INR 9) by (simpl; lra).
    apply Rpower_pow. lra. }
  destruct (Rlt_le_dec x 3) as [H|H]; [exact H|exfalso].
  assert (3 ^ 20 <= x ^ 20) by (apply pow_incr; lra).
  assert (10 ^ 9 < 3 ^ 20) by (simpl; lra). lra.
Qed.

Lemma Rpower10_half : 3 <= Rpower 10 (1 / 2).
Proof.
  set (x := Rpower 10 (1 / 2)).
  assert (Hx : 0 < x) by apply Rpower10_pos.
  assert (H2 : x ^ 2 = 10).
  { rewrite <- (Rpower_pow 2 x Hx). unfold x. rewrite Rpower_mult.
    replace (1 / 2 * INR 2) with 1 by (simpl; lra).
    apply Rpower_1. lra. }
  destruct (Rle_lt_dec 3 x) as [H|H]; [exact H|exfalso].
  simpl in H2. nra.
Qed.

End DecodedDistance.

Lemma decoded_distance_sign_aux (now : Z) (s : string) (rssi : number) (b : Beacon) :
  parse now s rssi = Normal (Some b) ->
  (distance b = NaN <-> parseInt (substr s 40 2) 16 = None \/ rssi = NaN) /\
  distance b <> Inf true.
Proof.
  intros Hb. destruct (distance_kinds now s rssi) as (b' & Hb' & Hd).
  rewrite (parse_deterministic _ _ _ _ _ Hb Hb'). rewrite Hd.
  destruct (parseInt (substr s 40 2) 16) as [v|]; [destruct rssi as [|[|]|r]|];
    (split; [split; [intros H|intros [H|H]]|]); try congruence; auto.
Qed.


(** X10: A payload heard twice at the same rssi gives two records, apart in
    [lastSeen] only, that are equal; unless the power field does not parse or
    the rssi is NaN: then they are not. *)
Theorem reobserved_isEqual (now now' : Z) (s : string) (rssi : number) :
  exists b b',
    parse now s rssi = Normal (Some b) /\
    parse now' s rssi = Normal (Some b') /\
    lastSeen b = now /\ lastSeen b' = now' /\
    (isEqual b (Object b') = Normal (VBoolean true) <->
     parseInt (substr s 40 2) 16 <> None /\ rssi <> NaN) /\
    (isEqual b (Object b') = Normal (VBoolean false) <->
     parseInt (substr s 40 2) 16 = None \/ rssi = NaN).
Proof.
  destruct (parse_fields now s rssi) as (b & Hb & Hu & Hj & Hd & _ & Hl).
  destruct (parse_fields now' s rssi) as (b' & Hb' & Hu' & Hj' & Hd' & _ & Hl').
  destruct (decoded_distance_sign_aux now s rssi b Hb) as [HN _].
  exists b, b'. repeat (split; [assumption|]).
  assert (Hg : getRoundedDistance b' = getRoundedDistance b).
  { rewrite !getRoundedDistance_cases. rewrite Hd, Hd'. reflexivity. }
  rewrite isEqual_Object, Hu, Hu', Hj, Hj', !String.eqb_refl, Hg. cbn [andb].
  assert (Hrefl : strictEquals (getRoundedDistance b) (getRoundedDistance b) = true
                  <-> distance b <> NaN).
  { rewrite strictEquals_eq, getRoundedDistance_cases.
    destruct (distance b); split; try (intros [_ E]; congruence);
      intros E; (split; [reflexivity|congruence]). }
  split.
  - split.
    + intros E. injection E as E. apply Hrefl in E.
      split; intros E'; apply E; apply HN; auto.
    + intros [E1 E2]. do 2 f_equal. apply Hrefl. intros E. apply HN in E.
      destruct E; contradiction.
  - split.
    + intros E. injection E as E.
      destruct (parseInt (substr s 40 2) 16) eqn:Ep; [|auto].
      destruct rssi as [| |r]; [auto| |];
        exfalso; apply not_true_iff_false in E; apply E; apply Hrefl;
        intros E'; apply HN in E'; destruct E'; discriminate.
    + intros E. apply HN in E. do 2 f_equal. apply not_true_iff_false.
      intros E'. apply Hrefl in E'. contradiction.
Qed.

(** ** The proximity by the loss of signal *)

(** X11: For a payload whose power field parses and an integer rssi, the
    proximity is decided by the loss [power - rssi] in whole decibels:
    "immediate" exactly when the rssi is above the power, "near" exactly when
    the loss is from 0 to 9, "far" exactly when it is 10 or more. *)
Theorem proximity_by_loss (now : Z) (s : string) (v rssi : Z) :
  parseInt (substr s 40 2) 16 = Some v ->
  exists b,
    parse now s (Fin (IZR rssi)) = Normal (Some b) /\
    (proximity b = PROXIMITY.IMMEDIATE <-> v - 256 - rssi < 0) /\
    (proximity b = PROXIMITY.NEAR <-> 0 <= v - 256 - rssi <= 9) /\
    (proximity b = PROXIMITY.FAR <-> 10 <= v - 256 - rssi).
Proof.
  intros Hv.
  destruct (distance_cases now s v (Fin (IZR rssi)) Hv) as (b & Hb & Hd).
  exists b. split; [exact Hb|].
  rewrite <- !minus_IZR in Hd. set (d := v - 256 - rssi) in *.
  destruct (proximity_real now s _ _ b Hb Hd) as (Himm & Hnear & Hfar).
  assert (Hcases : d < 0 \/ 0 <= d <= 9 \/ 10 <= d) by lia.
  assert (H1 : d < 0 -> proximity b = PROXIMITY.IMMEDIATE).
  { intros Hd0. apply Himm. apply Rpower10_lt_1. apply IZR_lt in Hd0. lra. }
  assert (H2 : 0 <= d <= 9 -> proximity b = PROXIMITY.NEAR).
  { intros [Hl Hu]. apply Hnear. apply IZR_le in Hl, Hu. split.
    - apply Rpower10_ge_1. lra.
    - eapply Rle_lt_trans; [|exact Rpower10_nine_twentieths].
      apply Rpower10_le. lra. }
  assert (H3 : 10 <= d -> proximity b = PROXIMITY.FAR).
  { intros Hd0. apply Hfar. apply IZR_le in Hd0.
    eapply Rle_trans; [exact Rpower10_half|]. apply Rpower10_le. lra. }
  split; [|split]; (split; [intros E|auto]);
    destruct Hcases as [Hc|[Hc|Hc]]; try lia;
    try (rewrite (H1 Hc) in E; discriminate E);
    try (rewrite (H2 Hc) in E; discriminate E);
    try (rewrite (H3 Hc) in E; discriminate E).
Qed.

Lemma proximity_by_loss_witness :
  exists b,
    parse 0 "1234567890ABCDEF1234567890ABCDEF00030007C6" (Fin (IZR (-67)))
      = Normal (Some b) /\
    proximity b = "near".
Proof.
  destruct (proximity_by_loss 0 "1234567890ABCDEF1234567890ABCDEF00030007C6"
              198 (-67) eq_refl) as (b & Hb & _ & Hnear & _).
  exists b. split; [exact Hb|]. apply Hnear. lia.
Defined.

(** ** The size of a join code *)

Lemma length_trimStart (s : string) :
  (String.length (trimStart s) <= String.length s)%nat.
Proof.
  induction s as [|c s IH]; simpl; [lia|].
  destruct (isWhiteSpace c); simpl; lia.
Qed.

Lemma prefix_length (p s : string) :
  prefix p s = true -> (String.length p <= String.length s)%nat.
Proof.
  revert s; induction p as [|a p IH]; intros s H; simpl; [lia|].
  destruct s as [|c s]; [discriminate|]. cbn [prefix] in H.
  destruct (ascii_dec a c); [|discriminate]. apply IH in H. simpl. lia.
Qed.

(** What [parseInt] reads in base 16 from a string of [n] characters lies
    strictly between [- 16 ^ (n - 1)] and [16 ^ n]: a sign takes a
    character. *)
Lemma parseInt16_bound (s : string) (v : Z) :
  parseInt s 16 = Some v ->
  - 16 ^ Z.of_nat (String.length s - 1) < v < 16 ^ Z.of_nat (String.length s).
Proof.
  unfold parseInt. change (ToInt32 16) with 16.
  change (16 =? 0) with false. change (16 =? 16) with true.
  change (16 <? 2) with false. change (36 <? 16) with false.
  cbn [negb andb orb]. cbv zeta.
  pose proof (length_trimStart s) as Ht. set (S1 := trimStart s) in *.
  set (S2 := if prefix "-" S1 || prefix "+" S1 then drop 1 S1 else S1).
  set (S3 := if prefix "0x" S2 || prefix "0X" S2 then drop 2 S2 else S2).
  replace (if prefix "0x" S2 || prefix "0X" S2 then 16 else 16) with 16
    by (destruct (prefix "0x" S2 || prefix "0X" S2); reflexivity).
  assert (H3 : (String.length S3 <= String.length S2)%nat).
  { unfold S3. destruct (prefix "0x" S2 || prefix "0X" S2); [|lia].
    rewrite length_drop. lia. }
  assert (H2 : (String.length S2 <= String.length S1)%nat).
  { unfold S2. destruct (prefix "-" S1 || prefix "+" S1); [|lia].
    rewrite length_drop. lia. }
  assert (Hneg : prefix "-" S1 = true ->
                 (String.length S2 <= String.length s - 1)%nat).
  { intros Hp. pose proof (prefix_length _ _ Hp) as H1. simpl in H1.
    unfold S2. rewrite Hp. cbn [orb]. rewrite length_drop. lia. }
  pose proof (horner_ge 16 radix16 S3 0 ltac:(lia)) as Hge.
  pose proof (horner_lt 16 S3 0 radix16 ltac:(lia)) as Hlt.
  fold (mathInt 16 (takeDigits 16 S3)) in Hge, Hlt.
  set (m := mathInt 16 (takeDigits 16 S3)) in *.
  assert (Hpow : forall a b : nat, (a <= b)%nat ->
                   16 ^ Z.of_nat a <= 16 ^ Z.of_nat b).
  { intros a b Hab. apply Z.pow_le_mono_r; lia. }
  assert (Hp0 : forall a : nat, 0 < 16 ^ Z.of_nat a).
  { intros a. apply Z.pow_pos_nonneg; lia. }
  destruct (takeDigits 16 S3) as [|d ds] eqn:Ed; [discriminate|].
  intros E. injection E as <-.
  pose proof (Hpow _ _ H3). pose proof (Hpow _ _ H2). pose proof (Hpow _ _ Ht).
  pose proof (Hp0 (String.length s - 1)%nat).
  destruct (prefix "-" S1) eqn:Hm.
  - pose proof (Hpow _ _ (Hneg eq_refl)). pose proof (Hp0 (String.length s)).
    lia.
  - lia.
Qed.

(** X12: The join code of a decoded record has 7 characters at most, whatever
    the payload; the fields ffffffff reach them. *)
Theorem joinCode_length (now : Z) (s : string) (rssi : number) :
  exists b,
    parse now s rssi = Normal (Some b) /\
    (String.length (joinCode b) <= 7)%nat /\
    (substr s 32 8 = "ffffffff" -> joinCode b = "1z141z3").
Proof.
  destruct (parse_fields now s rssi) as (b & Hb & _ & Hj & _).
  exists b. split; [exact Hb|]. rewrite Hj. split.
  - set (fields := substr s 32 4 ++ substr s 36 4).
    assert (Hl : (String.length fields <= 8)%nat).
    { unfold fields, substr. rewrite length_append, !length_take. lia. }
    destruct (parseInt fields 16) as [v|] eqn:E; [|simpl; lia].
    apply parseInt16_bound in E.
    assert (H8 : 16 ^ Z.of_nat (String.length fields) <= 16 ^ 8)
      by (apply Z.pow_le_mono_r; lia).
    assert (H7 : 16 ^ Z.of_nat (String.length fields - 1) <= 16 ^ 7)
      by (apply Z.pow_le_mono_r; lia).
    unfold numberText.
    destruct (Z.ltb_spec v 0) as [Hneg|Hpos].
    + change ("-" ++ digits 36 (- v)) with (String "-" (digits 36 (- v))).
      cbn [String.length].
      pose proof (length_digits 36 radix36 6 (- v)) as H.
      assert (16 ^ 7 < 36 ^ Z.of_nat 6) by (vm_compute; reflexivity).
      lia.
    + destruct (Z.eqb_spec v 0); [simpl; lia|].
      pose proof (length_digits 36 radix36 7 v) as H.
      assert (16 ^ 8 < 36 ^ Z.of_nat 7) by (vm_compute; reflexivity).
      lia.
  - intros E.
    change (substr s 36 4) with (substr s (32 + 4) 4).
    rewrite (substr_adjacent s 32 4 4). change (4 + 4)%nat with 8%nat.
    rewrite E. vm_compute. reflexivity.
Qed.

(** ** The shape of the identity *)

Lemma hexRun_append (g r : string) :
  hexRun (String.length g) (g ++ r) = if allDigits 16 g then Some r else None.
Proof.
  induction g as [|c g IH]; [reflexivity|].
  cbn [String.length append hexRun allDigits].
  destruct (radixDigit 16 c); [exact IH|reflexivity].
Qed.

Lemma allDigits_append (R : Z) (s t : string) :
  allDigits R (s ++ t) = allDigits R s && allDigits R t.
Proof.
  induction s as [|c s IH]; [reflexivity|]. cbn [append allDigits].
  destruct (radixDigit R c); [exact IH|reflexivity].
Qed.

(** X13: For a payload of 32 characters or more, the identity has the pattern
    XXXXXXXX-XXXX-XXXX-XXXX-XXXXXXXXXXXX of hexadecimal digits exactly when the
    first 32 characters of the payload are hexadecimal digits. *)
Theorem uuid_pattern (now : Z) (s : string) (rssi : number) :
  (32 <= String.length s)%nat ->
  exists b,
    parse now s rssi = Normal (Some b) /\
    isUUID (uuid b) = allDigits 16 (substr s 0 32).
Proof.
  intros Hlen.
  destruct (parse_fields now s rssi) as (b & Hb & Hu & _).
  exists b. split; [exact Hb|]. rewrite Hu.
  set (g1 := substr s 0 8). set (g2 := substr s 8 4). set (g3 := substr s 12 4).
  set (g4 := substr s 16 4). set (g5 := substr s 20 12).
  assert (L1 : String.length g1 = 8%nat) by (apply length_substr; lia).
  assert (L2 : String.length g2 = 4%nat) by (apply length_substr; lia).
  assert (L3 : String.length g3 = 4%nat) by (apply length_substr; lia).
  assert (L4 : String.length g4 = 4%nat) by (apply length_substr; lia).
  assert (L5 : String.length g5 = 12%nat) by (apply length_substr; lia).
  assert (Hcat : substr s 0 32 = g1 ++ g2 ++ g3 ++ g4 ++ g5).
  { unfold g1, g2, g3, g4, g5.
    rewrite (substr_adjacent s 16 4 12 : substr s 16 4 ++ substr s 20 12 = substr s 16 16).
    rewrite (substr_adjacent s 12 4 16 : substr s 12 4 ++ substr s 16 16 = substr s 12 20).
    rewrite (substr_adjacent s 8 4 20 : substr s 8 4 ++ substr s 12 20 = substr s 8 24).
    rewrite (substr_adjacent s 0 8 24 : substr s 0 8 ++ substr s 8 24 = substr s 0 32).
    reflexivity. }
  rewrite Hcat, !allDigits_append. unfold isUUID.
  rewrite <- L1 at 1. rewrite hexRun_append.
  destruct (allDigits 16 g1); [|reflexivity].
  change ("-" ++ ?x) with (String "-" x). cbn [append andb].
  rewrite <- L2 at 1. rewrite hexRun_append.
  destruct (allDigits 16 g2); [|reflexivity]. cbn [append andb].
  rewrite <- L3 at 1. rewrite hexRun_append.
  destruct (allDigits 16 g3); [|reflexivity]. cbn [append andb].
  rewrite <- L4 at 1. rewrite hexRun_append.
  destruct (allDigits 16 g4); [|reflexivity]. cbn [append andb].
  rewrite <- L5 at 1. rewrite <- (append_empty_r g5) at 2. rewrite hexRun_append.
  destruct (allDigits 16 g5); reflexivity.
Qed.

Lemma uuid_pattern_witness :
  exists b,
    parse 0 "1234567890abcdef1234567890ABCDEF00030007C6" (Fin (-70))
      = Normal (Some b) /\
    isUUID (uuid b) = true.
Proof.
  destruct (uuid_pattern 0 "1234567890abcdef1234567890ABCDEF00030007C6"
              (Fin (-70))) as (b & Hb & Hu); [simpl; lia|].
  exists b. split; [exact Hb|]. rewrite Hu. reflexivity.
Defined.

(** ** The case of the hexadecimal digits *)

Section Case.

Ltac each_char c := destruct c as [[] [] [] [] [] [] [] []].

Lemma isWhiteSpace_upperChar (c : ascii) :
  isWhiteSpace (upperChar c) = isWhiteSpace c.
Proof. each_char c; reflexivity. Qed.

Lemma digitValue_upperChar (c : ascii) :
  digitValue (upperChar c) = digitValue c.
Proof. each_char c; reflexivity. Qed.

(** A character that is no letter is found upper-cased where it was. *)
Lemma eqb_upperChar (a c : ascii) :
  digitValue a = None \/ a = "0"%char ->
  Ascii.eqb a (upperChar c) = Ascii.eqb a c.
Proof.
  intros Ha. destruct (Ascii.eqb_spec a c) as [->|Hne].
  - replace (upperChar c) with c; [apply Ascii.eqb_refl|].
    destruct Ha as [Ha| ->]; [|reflexivity].
    unfold upperChar. revert Ha. unfold digitValue. cbv zeta.
    destruct ((48 <=? code c) && (code c <=? 57)); [discriminate|].
    destruct ((97 <=? code c) && (code c <=? 122)); [discriminate|reflexivity].
  - apply Ascii.eqb_neq. intros ->. apply Hne. clear Hne.
    destruct Ha as [Ha|Ha].
    + rewrite digitValue_upperChar in Ha. unfold upperChar. revert Ha.
      unfold digitValue. cbv zeta.
      destruct ((48 <=? code c) && (code c <=? 57)); [discriminate|].
      destruct ((97 <=? code c) && (code c <=? 122)); [discriminate|reflexivity].
    + revert Ha. each_char c; intros Ha; try reflexivity; discriminate Ha.
Qed.

Lemma x_upperChar (c : ascii) :
  Ascii.eqb "x" (upperChar c) = false /\
  Ascii.eqb "X" (upperChar c) = Ascii.eqb "x" c || Ascii.eqb "X" c.
Proof. each_char c; split; reflexivity. Qed.

Lemma prefix_cons (a c : ascii) (p s : string) :
  prefix (String a p) (String c s) = Ascii.eqb a c && prefix p s.
Proof.
  cbn [prefix]. destruct (ascii_dec a c) as [->|Hne].
  - rewrite Ascii.eqb_refl. reflexivity.
  - apply Ascii.eqb_neq in Hne. rewrite Hne. reflexivity.
Qed.

Lemma upperASCII_append (s t : string) :
  upperASCII (s ++ t) = upperASCII s ++ upperASCII t.
Proof. induction s as [|c s IH]; simpl; congruence. Qed.

Lemma upperASCII_drop (n : nat) (s : string) :
  drop n (upperASCII s) = upperASCII (drop n s).
Proof.
  revert s; induction n as [|n IH]; intros [|c s]; simpl; auto.
Qed.

Lemma upperASCII_take (n : nat) (s : string) :
  take n (upperASCII s) = upperASCII (take n s).
Proof.
  revert s; induction n as [|n IH]; intros [|c s]; simpl; auto.
  f_equal. apply IH.
Qed.

Lemma upperASCII_substr (s : string) (k n : nat) :
  substr (upperASCII s) k n = upperASCII (substr s k n).
Proof. unfold substr. rewrite upperASCII_drop. apply upperASCII_take. Qed.

Lemma upperASCII_trimStart (s : string) :
  trimStart (upperASCII s) = upperASCII (trimStart s).
Proof.
  induction s as [|c s IH]; [reflexivity|]. cbn [upperASCII trimStart].
  rewrite isWhiteSpace_upperChar. destruct (isWhiteSpace c); [exact IH|reflexivity].
Qed.

Lemma upperASCII_takeDigits (R : Z) (s : string) :
  takeDigits R (upperASCII s) = takeDigits R s.
Proof.
  induction s as [|c s IH]; [reflexivity|]. cbn [upperASCII takeDigits].
  unfold radixDigit. rewrite digitValue_upperChar.
  destruct (digitValue c) as [d|]; [|reflexivity].
  destruct (d <? R); [rewrite IH|]; reflexivity.
Qed.

Lemma upperASCII_sign (a : ascii) (s : string) :
  digitValue a = None ->
  prefix (String a "") (upperASCII s) = prefix (String a "") s.
Proof.
  intros Ha. destruct s as [|c s]; [reflexivity|]. cbn [upperASCII].
  rewrite !prefix_cons, eqb_upperChar by (left; exact Ha).
  destruct s; reflexivity.
Qed.

Lemma upperASCII_hex_prefix (s : string) :
  prefix "0x" (upperASCII s) || prefix "0X" (upperASCII s)
  = prefix "0x" s || prefix "0X" s.
Proof.
  destruct s as [|c [|c' s]]; try reflexivity; cbn [upperASCII].
  - rewrite !prefix_cons. cbn [prefix]. rewrite !andb_false_r. reflexivity.
  - rewrite !prefix_cons, eqb_upperChar by (right; reflexivity).
    destruct (x_upperChar c') as [-> ->].
    replace (prefix "" (upperASCII s)) with true by (destruct s; reflexivity).
    replace (prefix "" s) with true by (destruct s; reflexivity).
    destruct (Ascii.eqb "0" c), (Ascii.eqb "x" c'), (Ascii.eqb "X" c');
      reflexivity.
Qed.

(** [parseInt] reads an upper-cased string as it reads the string. *)
Lemma parseInt_upperASCII (s : string) (radix : Z) :
  parseInt (upperASCII s) radix = parseInt s radix.
Proof.
  unfold parseInt. cbv zeta. rewrite upperASCII_trimStart.
  set (S1 := trimStart s).
  rewrite !(upperASCII_sign _ S1) by reflexivity.
  replace (if prefix "-" S1 || prefix "+" S1 then drop 1 (upperASCII S1)
           else upperASCII S1)
    with (upperASCII (if prefix "-" S1 || prefix "+" S1 then drop 1 S1 else S1))
    by (destruct (prefix "-" S1 || prefix "+" S1);
        [symmetry; apply upperASCII_drop|reflexivity]).
  set (S2 := if prefix "-" S1 || prefix "+" S1 then drop 1 S1 else S1).
  rewrite upperASCII_hex_prefix.
  destruct (negb (ToInt32 radix =? 0) && ((ToInt32 radix <? 2) || (36 <? ToInt32 radix)));
    [reflexivity|].
  destruct (((ToInt32 radix =? 0) || (ToInt32 radix =? 16))
            && (prefix "0x" S2 || prefix "0X" S2)).
  - rewrite upperASCII_drop, upperASCII_takeDigits. reflexivity.
  - rewrite upperASCII_takeDigits. reflexivity.
Qed.

End Case.

(** X14: Upper-casing the letters of a payload upper-cases its identity and
    changes nothing else: the join code, the distance and the proximity do not
    depend on the case of the hexadecimal digits. *)
Theorem parse_upperASCII (now : Z) (s : string) (rssi : number) :
  exists b b',
    parse now s rssi = Normal (Some b) /\
    parse now (upperASCII s) rssi = Normal (Some b') /\
    uuid b' = upperASCII (uuid b) /\
    joinCode b' = joinCode b /\
    distance b' = distance b /\
    proximity b' = proximity b.
Proof.
  destruct (parse_fields now s rssi) as (b & Hb & Hu & Hj & Hd & Hp & _).
  destruct (parse_fields now (upperASCII s) rssi)
    as (b' & Hb' & Hu' & Hj' & Hd' & Hp' & _).
  exists b, b'. split; [exact Hb|]. split; [exact Hb'|].
  rewrite !upperASCII_substr in Hu'. rewrite !upperASCII_substr in Hj'.
  rewrite !upperASCII_substr in Hd'.
  rewrite <- upperASCII_append, parseInt_upperASCII in Hj'.
  rewrite parseInt_upperASCII in Hd'.
  assert (Ed : distance b' = distance b) by congruence.
  repeat split.
  - rewrite Hu', Hu, !upperASCII_append. reflexivity.
  - congruence.
  - exact Ed.
  - rewrite Hp', Hp, Ed. reflexivity.
Qed.

(** ** The log line *)

Section LogLine.

Local Abbreviation chars := list_ascii_of_string.

Lemma chars_append (s t : string) : chars (s ++ t) = (chars s ++ chars t)%list.
Proof. induction s as [|c s IH]; simpl; congruence. Qed.

Lemma chars_inj (s t : string) : chars s = chars t -> s = t.
Proof.
  intros H. rewrite <- (string_of_list_ascii_of_string s),
    <- (string_of_list_ascii_of_string t). congruence.
Qed.

(** Two texts without a space, each followed by a space, start the same
    list only if they are the same text. *)
Lemma first_space_unique (x x' r r' : list ascii) :
  ~ In " "%char x -> ~ In " "%char x' ->
  (x ++ " "%char :: r = x' ++ " "%char :: r')%list -> x = x' /\ r = r'.
Proof.
  revert x'; induction x as [|c x IH]; intros [|c' x'] Hx Hx' E; simpl in *.
  - injection E as E. auto.
  - injection E as E _. subst c'. exfalso. apply Hx'. auto.
  - injection E as E _. subst c. exfalso. apply Hx. auto.
  - injection E as Ec E. subst c'.
    destruct (IH x') as [-> ->]; auto.
Qed.

Lemma allLower_no_space (s : string) :
  allLower s = true -> ~ In " "%char (chars s).
Proof.
  induction s as [|c s IH]; simpl; [tauto|].
  intros H. apply andb_prop in H. destruct H as [Hc Hs].
  intros [E|E]; [subst c; discriminate Hc|]. exact (IH Hs E).
Qed.

(** The text of an integer or NaN in radix 36 has no space in it. *)
Lemma numberText_no_space (x : option Z) :
  ~ In " "%char (chars (numberText x 36)).
Proof.
  destruct x as [z|]; cbn [numberText].
  - destruct (z <? 0).
    + rewrite chars_append. intros H. apply in_app_or in H.
      destruct H as [[H|[]]|H]; [discriminate H|].
      revert H. apply allLower_no_space. apply allLower_digitsBefore. reflexivity.
    + destruct (z =? 0).
      * simpl. intros [H|[]]. discriminate H.
      * apply allLower_no_space. apply allLower_digitsBefore. reflexivity.
  - simpl. intros [H|[H|[H|[]]]]; discriminate H.
Qed.

(** A line is written from one uuid, one code and one label only, when the
    code and the label have no space in them. *)
Lemma line_unique (u j p u' j' p' : string) :
  ~ In " "%char (chars j) -> ~ In " "%char (chars j') ->
  ~ In " "%char (chars p) -> ~ In " "%char (chars p') ->
  "UUID: " ++ u ++ " CODE: " ++ j ++ " PROXIMITY: " ++ p
  = "UUID: " ++ u' ++ " CODE: " ++ j' ++ " PROXIMITY: " ++ p' ->
  u = u' /\ j = j' /\ p = p'.
Proof.
  intros Hj Hj' Hp Hp' E.
  apply (f_equal chars) in E. rewrite !chars_append in E.
  apply (f_equal (@rev ascii)) in E. rewrite !rev_app_distr in E.
  change (rev (chars " PROXIMITY: "))
    with (" "%char :: rev (chars " PROXIMITY:")) in E.
  change (rev (chars " CODE: ")) with (" "%char :: rev (chars " CODE:")) in E.
  rewrite <- !app_assoc in E. cbn [app] in E.
  apply first_space_unique in E;
    [|rewrite <- in_rev; assumption|rewrite <- in_rev; assumption].
  destruct E as [Ep E].
  apply (f_equal (@rev ascii)) in Ep. rewrite !rev_involutive in Ep.
  apply chars_inj in Ep.
  apply app_inv_head in E.
  apply first_space_unique in E;
    [|rewrite <- in_rev; assumption|rewrite <- in_rev; assumption].
  destruct E as [Ej E].
  apply (f_equal (@rev ascii)) in Ej. rewrite !rev_involutive in Ej.
  apply chars_inj in Ej.
  apply app_inv_head, app_inv_tail in E.
  apply (f_equal (@rev ascii)) in E. rewrite !rev_involutive in E.
  apply chars_inj in E. auto.
Qed.

End LogLine.

(** X15: The line [toString] writes for a decoded record tells its uuid, its
    join code and its proximity: two decoded records with the same line agree on
    all three. *)
Theorem toString_decoded_injective
    (now now' : Z) (s s' : string) (rssi rssi' : number) (b b' : Beacon) :
  parse now s rssi = Normal (Some b) ->
  parse now' s' rssi' = Normal (Some b') ->
  toString b = toString b' ->
  uuid b = uuid b' /\ joinCode b = joinCode b' /\ proximity b = proximity b'.
Proof.
  intros Hb Hb' E.
  destruct (parse_fields now s rssi) as (c & Hc & _ & Hj & _ & Hp & _).
  destruct (parse_fields now' s' rssi') as (c' & Hc' & _ & Hj' & _ & Hp' & _).
  rewrite <- (parse_deterministic _ _ _ _ _ Hb Hc) in Hj, Hp.
  rewrite <- (parse_deterministic _ _ _ _ _ Hb' Hc') in Hj', Hp'.
  assert (Hlabel : forall d : number,
            ~ In " "%char
                (list_ascii_of_string
                   (if lt d (Fin 1) then PROXIMITY.IMMEDIATE
                    else if lt d (Fin 3) then PROXIMITY.NEAR
                    else PROXIMITY.FAR))).
  { intros d. destruct (lt d (Fin 1)); [|destruct (lt d (Fin 3))]; simpl;
      intros H; repeat (destruct H as [H|H]; [discriminate H|]); exact H. }
  apply line_unique; try exact E.
  - rewrite Hj. apply numberText_no_space.
  - rewrite Hj'. apply numberText_no_space.
  - rewrite Hp. apply Hlabel.
  - rewrite Hp'. apply Hlabel.
Qed.

Lemma toString_decoded_injective_witness :
  exists b b',
    parse 1 "1234567890ABCDEF1234567890ABCDEF00030007C6" (Fin (-70))
      = Normal (Some b) /\
    parse 2 "1234567890ABCDEF1234567890ABCDEF00030007C6" (Fin (-70))
      = Normal (Some b') /\
    toString b = toString b' /\
    uuid b = uuid b' /\ joinCode b = joinCode b' /\ proximity b = proximity b'.
Proof.
  destruct (parse_fields 1 "1234567890ABCDEF1234567890ABCDEF00030007C6"
              (Fin (-70))) as (b & Hb & Hu & Hj & Hd & Hp & _).
  destruct (parse_fields 2 "1234567890ABCDEF1234567890ABCDEF00030007C6"
              (Fin (-70))) as (b' & Hb' & Hu' & Hj' & Hd' & Hp' & _).
  assert (E : toString b = toString b').
  { unfold toString. rewrite Hu, Hu', Hj, Hj', Hp, Hp', Hd, Hd'. reflexivity. }
  exists b, b'. split; [exact Hb|]. split; [exact Hb'|]. split; [exact E|].
  exact (toString_decoded_injective _ _ _ _ _ _ b b' Hb Hb' E).
Defined.

(** ** The path-loss law *)



(** ** Equal records and their proximity *)

Lemma proximity_from_kind (now : Z) (s : string) (rssi : number) (b : Beacon) :
  parse now s rssi = Normal (Some b) ->
  (distance b = NaN -> proximity b = PROXIMITY.FAR) /\
  (forall i, distance b = Inf i -> proximity b = PROXIMITY.FAR).
Proof.
  intros Hb.
  destruct (parse_fields now s rssi) as (c & Hc & _ & _ & Hd & Hp & _).
  rewrite <- (parse_deterministic _ _ _ _ _ Hb Hc) in Hd, Hp.
  split.
  - intros E. rewrite Hp, E. reflexivity.
  - intros i E. rewrite Hp, E. destruct i; [|reflexivity].
    exfalso. rewrite Hd in E. unfold Math_pow10 in E.
    destruct (div _ _) as [|[|]|e]; discriminate E.
Qed.

(** X17: Two decoded records that compare equal have the same proximity, unless
    their rounded distance is exactly 1 or exactly 3, the two thresholds. *)
Theorem isEqual_same_proximity
    (now now' : Z) (s s' : string) (rssi rssi' : number) (b b' : Beacon) :
  parse now s rssi = Normal (Some b) ->
  parse now' s' rssi' = Normal (Some b') ->
  isEqual b (Object b') = Normal (VBoolean true) ->
  getRoundedDistance b <> Fin 1 ->
  getRoundedDistance b <> Fin 3 ->
  proximity b = proximity b'.
Proof.
  intros Hb Hb' E H1 H3.
  rewrite isEqual_Object in E. injection E as E.
  apply andb_prop in E. destruct E as [_ E].
  apply strictEquals_eq in E. destruct E as [E Hn].
  rewrite !getRoundedDistance_cases in E.
  rewrite getRoundedDistance_cases in H1, H3, Hn.
  destruct (proximity_from_kind now s rssi b Hb) as [HN HI].
  destruct (proximity_from_kind now' s' rssi' b' Hb') as [HN' HI'].
  pose proof (fun x => proximity_real now s rssi x b Hb) as P.
  pose proof (fun x => proximity_real now' s' rssi' x b' Hb') as P'.
  destruct (distance b) as [|i|x] eqn:Dx, (distance b') as [|i'|y] eqn:Dy;
    try discriminate E.
  - contradiction Hn.
  - rewrite (HI i eq_refl), (HI' i' eq_refl). reflexivity.
  - injection E as E.
    assert (Hk : Zfloor (y * 10 + / 2) = Zfloor (x * 10 + / 2))
      by (apply eq_IZR; lra).
    set (k := Zfloor (x * 10 + / 2)) in *.
    pose proof (Zfloor_bound (x * 10 + / 2)) as Bx. fold k in Bx.
    pose proof (Zfloor_bound (y * 10 + / 2)) as By. rewrite Hk in By.
    destruct (P x eq_refl) as (Pi & Pn & Pf).
    destruct (P' y eq_refl) as (Pi' & Pn' & Pf').
    assert (Hk1 : k <> 10) by (intros K; apply H1; rewrite K; f_equal; lra).
    assert (Hk3 : k <> 30) by (intros K; apply H3; rewrite K; f_equal; lra).
    assert (Hc : k <= 9 \/ 11 <= k <= 29 \/ 31 <= k) by lia.
    destruct Hc as [Hc|[[Hc Hc']|Hc]].
    + apply IZR_le in Hc. rewrite Pi, Pi' by lra. reflexivity.
    + apply IZR_le in Hc, Hc'. rewrite Pn, Pn' by lra. reflexivity.
    + apply IZR_le in Hc. rewrite Pf, Pf' by lra. reflexivity.
Qed.

Lemma isEqual_same_proximity_witness :
  exists b b',
    parse 1 "1234567890ABCDEF1234567890ABCDEF00030007C6" (Fin (-70))
      = Normal (Some b) /\
    parse 2 "1234567890ABCDEF1234567890ABCDEF00030007C6" (Fin (-70))
      = Normal (Some b') /\
    isEqual b (Object b') = Normal (VBoolean true) /\
    proximity b = proximity b'.
Proof.
  destruct (parse_fields 1 "1234567890ABCDEF1234567890ABCDEF00030007C6"
              (Fin (-70))) as (b & Hb & Hu & Hj & _).
  destruct (parse_fields 2 "1234567890ABCDEF1234567890ABCDEF00030007C6"
              (Fin (-70))) as (b' & Hb' & Hu' & Hj' & _).
  pose proof (distance_real 1 _ 198 (-70) b Hb eq_refl) as Hd.
  pose proof (distance_real 2 _ 198 (-70) b' Hb' eq_refl) as Hd'.
  replace ((198 - 256 - -70) / (10 * 2))%R with (6 / 10)%R in Hd, Hd' by lra.
  pose proof Rpower10_six_tenths as Hx.
  assert (Hk : Zfloor (Rpower 10 (6 / 10) * 10 + / 2) = 40)
    by (apply Zfloor_eq; lra).
  assert (Hg : getRoundedDistance b = Fin (40 / 10))
    by (rewrite getRoundedDistance_cases, Hd, Hk; reflexivity).
  assert (Hg' : getRoundedDistance b' = Fin (40 / 10))
    by (rewrite getRoundedDistance_cases, Hd', Hk; reflexivity).
  assert (E : isEqual b (Object b') = Normal (VBoolean true)).
  { rewrite isEqual_Object, Hu, Hu', Hj, Hj', !String.eqb_refl, Hg, Hg'.
    cbn [andb strictEquals]. do 2 f_equal. apply Reqb_true. reflexivity. }
  exists b, b'. split; [exact Hb|]. split; [exact Hb'|]. split; [exact E|].
  apply (isEqual_same_proximity _ _ _ _ _ _ b b' Hb Hb' E);
    rewrite Hg; intros H; injection H as H; lra.
Defined.
